(** * Build orchestration of the data-aggregation API: [internal/job/job.go]

    A shallow embedding of [precompute], [compute], [RunBuild] and
    [StartBuildLoop], and the properties their specification states.

    How the program is modelled:
    - A Go map [map[string]*device.Device] is a [gmap string (option Device)]:
      a key bound to [None] is a key bound to the nil pointer (the failure
      marker), an unbound key is an absent key. Each pointer of the map leads
      to a device of its own, so the map also stands for the devices the
      pointers lead to. A nil map is [None] of [option (gmap ...)].
    - A Go [error] value is an [option error]; [None] is the nil error.
    - [uint32] and [int64] values are in [Z], with the wrap-around of
      [atomic.Uint32.Add] and the saturation of [time.Time.Sub] written out.
    - The report channel is the trace of what was sent on it. The observer
      is taken to drain it, so that a send is a step like any other.
    - The goroutines of [compute] are a pool of tasks with program counters;
      a step is one statement of one goroutine, [Generateconfigs] being one
      step. [compute] is run under a schedule, which is any function that
      tells which goroutine moves next, and is specified for all of them.
    - What the loop meets from outside is an input: what the fetch returns
      and sends, the readings of the clock, and how each [select] ends. *)

From stdpp Require Import gmap strings list fin_maps pretty.
From Stdlib Require Import ZArith Lia.

Local Open Scope Z_scope.

(** ** Go's [errors] package *)

(** [errors.New] builds an [errorString], [errors.Join] a [joinError]. *)
#[warnings="-register-all"]
Inductive error : Type :=
| errorString (s : string)
| joinError (errs : list error).

Definition errors_New (text : string) : error := errorString text.

(** [errors.Join]: nil arguments are discarded; nil when none is left. *)
Definition errors_Join (errs : list (option error)) : option error :=
  match omap id errs with
  | [] => None
  | es => Some (joinError es)
  end.

Definition newline : string := String (Ascii.ascii_of_nat 10) EmptyString.

(** [err.Error()]; a [joinError] prints its members one per line. *)
Fixpoint Error (e : error) : string :=
  match e with
  | errorString s => s
  | joinError errs =>
      (fix lines (l : list error) : string :=
         match l with
         | [] => EmptyString
         | [x] => Error x
         | x :: r => Error x +:+ newline +:+ lines r
         end) errs
  end.

(** The tree walk of [errors.Is]: an error, then what it unwraps to. *)
Fixpoint unwrap_all (e : error) : list error :=
  e :: match e with
       | errorString _ => []
       | joinError errs => flat_map unwrap_all errs
       end.

(** ** Report messages (package [report]) *)

(** Modelled from the spec: the message kinds and severities of package
    [report], of which this file uses [PrecomputeMessage], [ComputeMessage],
    [Error] and [Warning]; the other constants of the package are kept apart
    under a tag. *)
Inductive MessageType : Type :=
| PrecomputeMessage
| ComputeMessage
| OtherMessageType (tag : string).

Inductive Severity : Type :=
| SeverityError
| Warning
| OtherSeverity (tag : string).

Record Message : Type := mkMessage {
  Type_ : MessageType;
  Severity_ : Severity;
  Text : string
}.

(** What a build does that can be seen from outside: a send on the report
    channel, or the start of a goroutine for the device stored under a
    hostname. *)
Inductive event : Type :=
| Send (m : Message)
| Go (hostname : string).

Global Instance MessageType_eq_dec : EqDecision MessageType.
Proof. solve_decision. Defined.
Global Instance Severity_eq_dec : EqDecision Severity.
Proof. solve_decision. Defined.
Global Instance Message_eq_dec : EqDecision Message.
Proof. solve_decision. Defined.
Global Instance event_eq_dec : EqDecision event.
Proof. solve_decision. Defined.

(** ** The collaborators of package [job] *)

(** The types and functions that [job.go] imports from the other packages:
    the inventory record and its hostname, the fetched assets, the shared
    precomputed data, the device model with its constructor and its
    artifact generation. *)
Class Externals : Type := {
  NetworkDevice : Type;
  Hostname : NetworkDevice -> string;
  Assets : Type;
  DeviceInventory : Assets -> list NetworkDevice;
  DevicesData : Type;
  Precompute : Assets -> DevicesData;
  ReportStats : Assets -> list Message;
  Device : Type;
  (** [device.NewDevice]: a new device, or an error *)
  NewDevice : NetworkDevice -> DevicesData -> Device + error;
  (** [dev.Generateconfigs()]: the device as it leaves it, and an error *)
  Generateconfigs : Device -> Device * option error
}.

Section Job.
Context `{X : Externals}.

(** [devices[h] == nil]: a nil entry or no entry. *)
Definition is_nil (devices : gmap string (option Device)) (h : string) : bool :=
  match devices !! h with
  | Some (Some _) => false
  | _ => true
  end.

(** ** [precompute] *)

Record precompute_state : Type := mkPre {
  pre_devices : gmap string (option Device);
  pre_errors : option error;
  pre_trace : list event
}.

Definition precompute_error_message (err : error) : Message :=
  {| Type_ := PrecomputeMessage; Severity_ := SeverityError; Text := Error err |}.

(** One turn of the loop of [precompute] (lines 28 to 40). *)
Definition precompute_step (devicesData : DevicesData)
    (acc : precompute_state) (dev : NetworkDevice) : precompute_state :=
  match NewDevice dev devicesData with
  | inr err =>
      {| pre_devices := <[Hostname dev := None]> (pre_devices acc);
         pre_errors := errors_Join [pre_errors acc; Some err];
         pre_trace := pre_trace acc ++ [Send (precompute_error_message err)] |}
  | inl newDevice =>
      {| pre_devices := <[Hostname dev := Some newDevice]> (pre_devices acc);
         pre_errors := pre_errors acc;
         pre_trace := pre_trace acc |}
  end.

Definition precompute_loop (devicesData : DevicesData)
    (acc : precompute_state) (inventory : list NetworkDevice) : precompute_state :=
  foldl (precompute_step devicesData) acc inventory.

Definition precompute (ingestorRepo : Assets) : precompute_state :=
  precompute_loop (Precompute ingestorRepo)
    {| pre_devices := ∅; pre_errors := None; pre_trace := [] |}
    (DeviceInventory ingestorRepo).

(** The error of [NewDevice] for a device, nil when it has none. *)
Definition NewDevice_error (devicesData : DevicesData) (dev : NetworkDevice) :
    option error :=
  match NewDevice dev devicesData with
  | inr err => Some err
  | inl _ => None
  end.

(** The entry [precompute] writes for a device: nil on error, else the
    device [NewDevice] returned. *)
Definition precompute_entry (devicesData : DevicesData) (dev : NetworkDevice) :
    option Device :=
  match NewDevice dev devicesData with
  | inr _ => None
  | inl newDevice => Some newDevice
  end.

(** The errors of [NewDevice] over an inventory, in its order. *)
Definition failures (devicesData : DevicesData) (inventory : list NetworkDevice) :
    list error :=
  omap (NewDevice_error devicesData) inventory.

(** [errors.Join(...errors.Join(errors.Join(agg, e1), e2)..., en)] *)
Definition join_all (agg : option error) (errs : list error) : option error :=
  foldl (λ agg err, errors_Join [agg; Some err]) agg errs.

(** The texts of errors, one per line. *)
Definition error_lines (errs : list error) : string :=
  match errs with
  | [] => EmptyString
  | e :: rest => foldl (λ text err, text +:+ newline +:+ Error err) (Error e) rest
  end.

(** ** [compute] *)

(** Where a goroutine of [compute] stands in its body (lines 64 to 80). *)
Inductive pc : Type :=
| AtGenerate      (* line 66, before [dev.Generateconfigs()] *)
| AtReport        (* line 67, before the send of the error message *)
| AtLockFailed    (* line 72 *)
| AtSetFailed     (* line 73 *)
| AtUnlockFailed  (* line 74 *)
| AtLockBuilt     (* line 76 *)
| AtAddBuilt      (* line 77 *)
| AtUnlockBuilt   (* line 78 *)
| AtDone          (* the deferred [wg.Done()] *)
| Finished.

(** A goroutine: the device it was given (the pointer stored under
    [t_host]), its program counter and its local variable [err]. *)
Record task : Type := mkTask {
  t_host : string;
  t_pc : pc;
  t_err : option error
}.

(** The state of one call of [compute]: the rest of the inventory the [for]
    loop still has to go through, the goroutines started so far, the
    [WaitGroup] counter, the mutex, [failed], [builtCount], the devices the
    pointers of the map lead to, what was sent and started so far, and the
    values returned once the call is over. *)
Record cstate : Type := mkC {
  c_todo : list NetworkDevice;
  c_tasks : list task;
  c_wg : Z;
  c_mutex : bool;
  c_failed : bool;
  c_builtCount : Z;
  c_devices : gmap string (option Device);
  c_trace : list event;
  c_ret : option (Z * option error)
}.

Definition uint32_add (a b : Z) : Z := (a + b) mod 2 ^ 32.

Definition no_configuration_message (hostname : string) : Message :=
  {| Type_ := ComputeMessage; Severity_ := Warning;
     Text := "device " +:+ hostname +:+ " has no configuration" |}.

Definition generate_error_message (err : error) : Message :=
  {| Type_ := PrecomputeMessage; Severity_ := SeverityError; Text := Error err |}.

Definition conversion_failed : error := errors_New "OpenConfig conversion failed".

(** A step of the goroutine that runs [compute] itself: one turn of the loop
    of lines 53 to 81, or, the loop over, [wg.Wait()] and the return. *)
Definition main_step (s : cstate) : option cstate :=
  match c_ret s with
  | Some _ => None
  | None =>
      match c_todo s with
      | dev :: rest =>
          if is_nil (c_devices s) (Hostname dev) then
            Some (mkC rest (c_tasks s) (c_wg s) (c_mutex s) (c_failed s)
                    (c_builtCount s) (c_devices s)
                    (c_trace s ++ [Send (no_configuration_message (Hostname dev))])
                    None)
          else
            Some (mkC rest (c_tasks s ++ [mkTask (Hostname dev) AtGenerate None])
                    (c_wg s + 1) (c_mutex s) (c_failed s)
                    (c_builtCount s) (c_devices s)
                    (c_trace s ++ [Go (Hostname dev)])
                    None)
      | [] =>
          if decide (c_wg s = 0) then
            Some (mkC [] (c_tasks s) (c_wg s) (c_mutex s) (c_failed s)
                    (c_builtCount s) (c_devices s) (c_trace s)
                    (Some (c_builtCount s,
                           if c_failed s then Some conversion_failed else None)))
          else None
      end
  end.

(** A step of the [i]-th goroutine started by [compute]. *)
Definition task_step (i : nat) (s : cstate) : option cstate :=
  match c_tasks s !! i with
  | None => None
  | Some t =>
      let goto (p : pc) : task := mkTask (t_host t) p (t_err t) in
      match t_pc t with
      | AtGenerate =>
          match c_devices s !! t_host t with
          | Some (Some d) =>
              let '(d', err) := Generateconfigs d in
              Some (mkC (c_todo s)
                      (<[i := mkTask (t_host t)
                                (match err with
                                 | Some _ => AtReport
                                 | None => AtLockBuilt
                                 end) err]>
                         (c_tasks s))
                      (c_wg s) (c_mutex s) (c_failed s) (c_builtCount s)
                      (<[t_host t := Some d']> (c_devices s))
                      (c_trace s) (c_ret s))
          | _ => None
          end
      | AtReport =>
          match t_err t with
          | Some err =>
              Some (mkC (c_todo s) (<[i := goto AtLockFailed]> (c_tasks s))
                      (c_wg s) (c_mutex s) (c_failed s) (c_builtCount s)
                      (c_devices s)
                      (c_trace s ++ [Send (generate_error_message err)])
                      (c_ret s))
          | None => None
          end
      | AtLockFailed =>
          if c_mutex s then None
          else Some (mkC (c_todo s) (<[i := goto AtSetFailed]> (c_tasks s))
                       (c_wg s) true (c_failed s) (c_builtCount s)
                       (c_devices s) (c_trace s) (c_ret s))
      | AtSetFailed =>
          Some (mkC (c_todo s) (<[i := goto AtUnlockFailed]> (c_tasks s))
                  (c_wg s) (c_mutex s) true (c_builtCount s)
                  (c_devices s) (c_trace s) (c_ret s))
      | AtUnlockFailed =>
          Some (mkC (c_todo s) (<[i := goto AtDone]> (c_tasks s))
                  (c_wg s) false (c_failed s) (c_builtCount s)
                  (c_devices s) (c_trace s) (c_ret s))
      | AtLockBuilt =>
          if c_mutex s then None
          else Some (mkC (c_todo s) (<[i := goto AtAddBuilt]> (c_tasks s))
                       (c_wg s) true (c_failed s) (c_builtCount s)
                       (c_devices s) (c_trace s) (c_ret s))
      | AtAddBuilt =>
          Some (mkC (c_todo s) (<[i := goto AtUnlockBuilt]> (c_tasks s))
                  (c_wg s) (c_mutex s) (c_failed s)
                  (uint32_add (c_builtCount s) 1)
                  (c_devices s) (c_trace s) (c_ret s))
      | AtUnlockBuilt =>
          Some (mkC (c_todo s) (<[i := goto AtDone]> (c_tasks s))
                  (c_wg s) false (c_failed s) (c_builtCount s)
                  (c_devices s) (c_trace s) (c_ret s))
      | AtDone =>
          Some (mkC (c_todo s) (<[i := goto Finished]> (c_tasks s))
                  (c_wg s - 1) (c_mutex s) (c_failed s) (c_builtCount s)
                  (c_devices s) (c_trace s) (c_ret s))
      | Finished => None
      end
  end.

(** The goroutines of a call of [compute]. *)
Inductive thread : Type :=
| Main
| Worker (i : nat).

Definition step_at (th : thread) (s : cstate) : option cstate :=
  match th with
  | Main => main_step s
  | Worker i => task_step i s
  end.

Definition compute_init (inventory : list NetworkDevice)
    (devices : gmap string (option Device)) : cstate :=
  mkC inventory [] 0 false false 0 devices [] None.

(** The goroutines that can make a step, [Main] first. *)
Definition enabled (s : cstate) : list thread :=
  filter (λ th, is_Some (step_at th s))
    (Main :: map Worker (seq 0 (length (c_tasks s)))).

(** A schedule tells, at each step, which of the goroutines that can make a
    step makes it: the [k]-th, counted round the list. *)
Definition pick (k : nat) (s : cstate) : option thread :=
  enabled s !! (k mod length (enabled s))%nat.

Fixpoint exec (fuel : nat) (sched : nat → nat) (n : nat) (s : cstate) : cstate :=
  match fuel with
  | O => s
  | S fuel' =>
      match pick (sched n) s ≫= (λ th, step_at th s) with
      | Some s' => exec fuel' sched (S n) s'
      | None => s
      end
  end.

(** The steps left to a goroutine, and a bound on those left to the call. *)
Definition steps_left (p : pc) : nat :=
  match p with
  | AtGenerate => 6
  | AtReport => 5
  | AtLockFailed => 4
  | AtSetFailed => 3
  | AtUnlockFailed => 2
  | AtLockBuilt => 4
  | AtAddBuilt => 3
  | AtUnlockBuilt => 2
  | AtDone => 1
  | Finished => 0
  end.

Definition measure (s : cstate) : nat :=
  (match c_ret s with Some _ => 0 | None => 1 end + 7 * length (c_todo s)
   + sum_list_with (λ t, steps_left (t_pc t)) (c_tasks s))%nat.

Record compute_result : Type := mkComputeResult {
  cr_built : Z;
  cr_error : option error;
  cr_devices : gmap string (option Device);
  cr_trace : list event;
  cr_final : cstate
}.

(** [compute] under a schedule. The call is run for as many steps as it can
    take; [compute_returns] shows that it has returned by then. *)
Definition compute (sched : nat → nat) (ingestorRepo : Assets)
    (devices : gmap string (option Device)) : compute_result :=
  let s0 := compute_init (DeviceInventory ingestorRepo) devices in
  let s := exec (measure s0) sched 0 s0 in
  let ret := default (c_builtCount s, None) (c_ret s) in
  mkComputeResult ret.1 ret.2 (c_devices s) (c_trace s) s.

(** *** Runs of [compute] and what they keep true *)

(** A run: the goroutines that make the steps, one after the other. *)
Fixpoint run (ths : list thread) (s : cstate) : option cstate :=
  match ths with
  | [] => Some s
  | th :: ths' => step_at th s ≫= run ths'
  end.

(** A goroutine that has not called [wg.Done()] yet. *)
Definition live_of (t : task) : nat :=
  match t_pc t with
  | Finished => 0
  | _ => 1
  end.

(** A goroutine that holds the mutex. *)
Definition critical_of (t : task) : nat :=
  match t_pc t with
  | AtSetFailed | AtUnlockFailed | AtAddBuilt | AtUnlockBuilt => 1
  | _ => 0
  end.

(** A goroutine that has added one to [builtCount]. *)
Definition built_of (t : task) : nat :=
  match t_pc t, t_err t with
  | (AtUnlockBuilt | AtDone | Finished), None => 1
  | _, _ => 0
  end.

(** A goroutine that has set [failed]. *)
Definition failed_of (t : task) : nat :=
  match t_pc t, t_err t with
  | (AtUnlockFailed | AtDone | Finished), Some _ => 1
  | _, _ => 0
  end.

(** The branch a goroutine is in agrees with its [err]. *)
Definition pc_err_ok (p : pc) (err : option error) : Prop :=
  match p with
  | AtReport | AtLockFailed | AtSetFailed | AtUnlockFailed => is_Some err
  | AtLockBuilt | AtAddBuilt | AtUnlockBuilt => err = None
  | AtGenerate | AtDone | Finished => True
  end.

Definition task_ok (devices : gmap string (option Device)) (t : task) : Prop :=
  is_nil devices (t_host t) = false ∧ pc_err_ok (t_pc t) (t_err t).

(** Whether an entry is the failure marker. *)
Definition marker (entry : option Device) : bool :=
  match entry with
  | None => true
  | Some _ => false
  end.

(** What the loop of [compute] does for a device: a warning for a marked
    one, a goroutine for another. *)
Definition main_event (devices : gmap string (option Device))
    (dev : NetworkDevice) : event :=
  if is_nil devices (Hostname dev) then
    Send (no_configuration_message (Hostname dev))
  else Go (Hostname dev).

(** The events of the loop itself; those of the goroutines it starts are the
    sends of [generate_error_message]. *)
Definition is_main_event (e : event) : bool :=
  match e with
  | Go _ => true
  | Send m => bool_decide (Type_ m = ComputeMessage)
  end.

(** The devices of an inventory with a failure marker ([M] of them), and
    without. *)
Definition marked_devices (devices : gmap string (option Device))
    (inventory : list NetworkDevice) : list NetworkDevice :=
  filter (λ dev, is_nil devices (Hostname dev) = true) inventory.

Definition valid_devices (devices : gmap string (option Device))
    (inventory : list NetworkDevice) : list NetworkDevice :=
  filter (λ dev, is_nil devices (Hostname dev) = false) inventory.

(** The goroutines whose [Generateconfigs] returned no error, and the
    others, once all have run. *)
Definition succeeded (s : cstate) : list task :=
  filter (λ t, t_err t = None) (c_tasks s).

Definition failed_tasks (s : cstate) : list task :=
  filter (λ t, t_err t ≠ None) (c_tasks s).

(** What every state of a call of [compute] on [inventory] and [devices]
    satisfies. *)
Record compute_inv (inventory : list NetworkDevice)
    (devices : gmap string (option Device)) (s : cstate) : Prop := mkInv {
  inv_tasks : Forall (task_ok devices) (c_tasks s);
  inv_wg : c_wg s = Z.of_nat (sum_list_with live_of (c_tasks s));
  inv_mutex :
    sum_list_with critical_of (c_tasks s) = if c_mutex s then 1%nat else 0%nat;
  inv_failed :
    c_failed s = true ↔ (0 < sum_list_with failed_of (c_tasks s))%nat;
  inv_built :
    c_builtCount s = Z.of_nat (sum_list_with built_of (c_tasks s)) mod 2 ^ 32;
  inv_markers : marker <$> c_devices s = marker <$> devices;
  inv_main :
    filter (λ e, is_main_event e = true) (c_trace s)
      ++ map (main_event devices) (c_todo s)
    = map (main_event devices) inventory;
  inv_dispatched :
    map t_host (c_tasks s) ++ map Hostname (valid_devices devices (c_todo s))
    = map Hostname (valid_devices devices inventory);
  inv_ret :
    ∀ n e, c_ret s = Some (n, e) →
      c_todo s = [] ∧ c_wg s = 0 ∧ n = c_builtCount s
      ∧ e = (if c_failed s then Some conversion_failed else None)
}.

(** What the goroutine of a device does to it, when each device has one
    goroutine: before [Generateconfigs] the device is as [compute] received
    it, afterwards it is as [Generateconfigs] left it and [err] is what
    [Generateconfigs] returned. *)
Definition task_outcome (devices current : gmap string (option Device))
    (t : task) : Prop :=
  match devices !! t_host t with
  | Some (Some d) =>
      match t_pc t with
      | AtGenerate => current !! t_host t = Some (Some d)
      | _ =>
          t_err t = (Generateconfigs d).2
          ∧ current !! t_host t = Some (Some (Generateconfigs d).1)
      end
  | _ => False
  end.

(** The devices of an inventory whose model generates its configuration
    without error. *)
Definition generates (devices : gmap string (option Device))
    (hostname : string) : bool :=
  match devices !! hostname with
  | Some (Some d) =>
      match (Generateconfigs d).2 with
      | None => true
      | Some _ => false
      end
  | _ => false
  end.

Definition built_devices (devices : gmap string (option Device))
    (inventory : list NetworkDevice) : list NetworkDevice :=
  filter (λ dev, generates devices (Hostname dev) = true) inventory.

(** The entry of a device once [compute] has returned. *)
Definition generated (entry : option Device) : option Device :=
  match entry with
  | Some d => Some (Generateconfigs d).1
  | None => None
  end.

(** What holds of the goroutines when each device has its own. *)
Record outcome_inv (devices : gmap string (option Device)) (s : cstate) :
    Prop := mkOutcome {
  out_tasks : Forall (task_outcome devices (c_devices s)) (c_tasks s);
  out_rest :
    ∀ h, h ∉ map t_host (c_tasks s) → c_devices s !! h = devices !! h
}.

Definition is_go (e : event) : bool :=
  match e with
  | Go _ => true
  | Send _ => false
  end.

(** ** [RunBuild] *)

(** [config.Cfg.Build] *)
Record Config : Type := mkConfig {
  AllDevicesMustBuild : bool;
  Interval : Z
}.

(** [report.Stats]; durations are [int64] nanoseconds. *)
Record Performance : Type := mkPerformance {
  DataFetchingDuration : Z;
  PrecomputeDuration : Z;
  ComputeDuration : Z;
  BuildDuration : Z
}.

Record Stats : Type := mkStats {
  BuiltDevicesCount : Z;
  Performance_ : Performance
}.

Definition Stats_zero : Stats := mkStats 0 (mkPerformance 0 0 0 0).

(** [t.Sub(u)] of package [time]: the difference, kept within [int64]. *)
Definition Time_Sub (t u : Z) : Z :=
  Z.max (- 2 ^ 63) (Z.min (2 ^ 63 - 1) (t - u)).

(** What one call of [RunBuild] meets: what [repository.FetchAssets] sends
    and returns, the four readings of [time.Now()] and the schedule of the
    goroutines of [compute]. *)
Record BuildEnv : Type := mkBuildEnv {
  fetch_sent : list Message;
  fetch_result : Assets + error;
  now : nat → Z;
  sched : nat → nat
}.

Record build_result : Type := mkBuild {
  rb_devices : option (gmap string (option Device));
  rb_stats : Stats;
  rb_error : option error;
  rb_trace : list event
}.

Definition all_devices_must_build : error :=
  errors_New "failed: all devices must build".

Definition some_devices_failed_message : Message :=
  {| Type_ := ComputeMessage; Severity_ := Warning;
     Text := "build failed for some devices" |}.

(** Lines 130 to 143: [compute] and what follows it. [trace] is what the
    call has sent so far, [fetchD] and [preD] the two durations already in
    [stats]. *)
Definition RunBuild_compute (env : BuildEnv) (ingestorRepo : Assets)
    (devices : gmap string (option Device)) (fetchD preD : Z)
    (trace : list event) : build_result :=
  let c := compute (sched env) ingestorRepo devices in
  let stats :=
    mkStats (cr_built c)
      (mkPerformance fetchD preD
         (Time_Sub (now env 3) (now env 2))
         (Time_Sub (now env 3) (now env 0))) in
  match cr_error c with
  | Some computeError =>
      mkBuild None stats (Some computeError) (trace ++ cr_trace c)
  | None =>
      mkBuild (Some (cr_devices c)) stats None (trace ++ cr_trace c)
  end.

Definition RunBuild (cfg : Config) (env : BuildEnv) : build_result :=
  match fetch_result env with
  | inr err => mkBuild None Stats_zero (Some err) (map Send (fetch_sent env))
  | inl ingestorRepo =>
      let fetchD := Time_Sub (now env 1) (now env 0) in
      let pre := precompute ingestorRepo in
      let preD := Time_Sub (now env 2) (now env 1) in
      let trace :=
        map Send (fetch_sent env ++ ReportStats ingestorRepo) ++ pre_trace pre in
      match pre_errors pre with
      | Some _ =>
          if AllDevicesMustBuild cfg then
            mkBuild None (mkStats 0 (mkPerformance fetchD preD 0 0))
              (Some all_devices_must_build) trace
          else
            RunBuild_compute env ingestorRepo (pre_devices pre) fetchD preD
              (trace ++ [Send some_devices_failed_message])
      | None =>
          RunBuild_compute env ingestorRepo (pre_devices pre) fetchD preD trace
      end
  end.

(** ** [StartBuildLoop] *)

(** Modelled from the spec: the states of a report, "{Idle, InProgress,
    Success, Failed}", of which the source names the last three. *)
Inductive Status : Type :=
| Idle
| InProgress
| Success
| Failed.

(** How the [select] of lines 194 to 201 ends: the timer of [time.After]
    fires, a value is received from the trigger, or the trigger is found
    closed. *)
Inductive select_outcome : Type :=
| IntervalElapsed
| TriggerReceived
| TriggerClosed.

Global Instance select_outcome_eq_dec : EqDecision select_outcome.
Proof. solve_decision. Defined.

(** The calls [StartBuildLoop] makes on its collaborators, in the order of
    the source. [Pipeline] is a thing [RunBuild] does while it runs;
    [Select] is the [select] with its outcome. *)
Inductive call : Type :=
| NewRegistry
| StartNewReport
| MakeReportCh
| GoWatch
| UpdateStatus (st : Status)
| Pipeline (e : event)
| BuildFailed
| BuildSuccessful
| SetBuiltDevices (n : Z)
| UpdateStats (stats : Stats)
| DevicesRepository_Set (devs : option (gmap string (option Device)))
| MarkAsSuccessful
| LogError (err : error) (msg : string)
| LogInfo (msg : string)
| SetBuildDataFetchingDuration (d : Z)
| SetBuildPrecomputeDuration (d : Z)
| SetBuildComputeDuration (d : Z)
| SetBuildTotalDuration (d : Z)
| MarkAsComplete
| CloseReportCh
| WaitWatch
| Select (o : select_outcome).

(** Modelled from the spec: [router.DevicesRepository], the downstream
    consumer, of which the source has only the call of [Set]: "Set(artifactMap)
    replaces the latest-known-good set". [published] is the set its readers
    see. *)
Definition Set_ (devs : option (gmap string (option Device)))
    (published : option (gmap string (option Device))) :
    option (gmap string (option Device)) := devs.

Record supervisor : Type := mkSup {
  published : option (gmap string (option Device));
  calls : list call
}.

(** What one turn of the loop does once [RunBuild] has returned [r], up to
    the [select] (lines 165 to 192). *)
Definition after_build (r : build_result) : list call :=
  match rb_error r with
  | Some err =>
      [BuildFailed; UpdateStatus Failed; UpdateStats (rb_stats r);
       LogError err "build failed"]
  | None =>
      [DevicesRepository_Set (rb_devices r); BuildSuccessful;
       SetBuiltDevices (BuiltDevicesCount (rb_stats r));
       UpdateStatus Success; UpdateStats (rb_stats r); MarkAsSuccessful;
       LogInfo "build successful"]
  end
  ++ [SetBuildDataFetchingDuration (DataFetchingDuration (Performance_ (rb_stats r)));
      SetBuildPrecomputeDuration (PrecomputeDuration (Performance_ (rb_stats r)));
      SetBuildComputeDuration (ComputeDuration (Performance_ (rb_stats r)));
      SetBuildTotalDuration (BuildDuration (Performance_ (rb_stats r)));
      MarkAsComplete; CloseReportCh; WaitWatch].

Definition cycle_calls (r : build_result) : list call :=
  [StartNewReport; MakeReportCh; GoWatch; UpdateStatus InProgress]
  ++ map Pipeline (rb_trace r) ++ after_build r.

(** One turn of the loop, lines 152 to 192. *)
Definition build_cycle (cfg : Config) (env : BuildEnv) (s : supervisor) : supervisor :=
  let r := RunBuild cfg env in
  {| published :=
       match rb_error r with
       | Some _ => published s
       | None => Set_ (rb_devices r) (published s)
       end;
     calls := calls s ++ cycle_calls r |}.

Definition log_call (c : list call) (s : supervisor) : supervisor :=
  {| published := published s; calls := calls s ++ c |}.

Definition stopping : call :=
  LogInfo "triggerNewBuild channel closed, stopping build loop".

(** The loop from its [n]-th turn on. [envs n] is what the [n]-th build
    meets and [waits n] how the [n]-th [select] ends. The result tells
    whether the function has returned within [fuel] turns. *)
Fixpoint build_loop (fuel : nat) (cfg : Config) (envs : nat → BuildEnv)
    (waits : nat → select_outcome) (n : nat) (s : supervisor) : supervisor * bool :=
  match fuel with
  | O => (s, false)
  | S fuel' =>
      let s1 := build_cycle cfg (envs n) s in
      match waits n with
      | TriggerClosed =>
          (log_call [Select TriggerClosed; stopping] s1, true)
      | o => build_loop fuel' cfg envs waits (S n) (log_call [Select o] s1)
      end
  end.

Definition StartBuildLoop (fuel : nat) (cfg : Config) (envs : nat → BuildEnv)
    (waits : nat → select_outcome)
    (deviceRepo : option (gmap string (option Device))) : supervisor * bool :=
  build_loop fuel cfg envs waits 0 (mkSup deviceRepo [NewRegistry]).

(** *** The loop, turn by turn *)

Definition is_Set (c : call) : bool :=
  match c with
  | DevicesRepository_Set _ => true
  | _ => false
  end.

(** The calls of [k] turns of the loop from the [n]-th on, each followed by
    the outcome of its [select]. *)
Fixpoint turns (cfg : Config) (envs : nat → BuildEnv)
    (waits : nat → select_outcome) (n k : nat) : list call :=
  match k with
  | O => []
  | S k' =>
      cycle_calls (RunBuild cfg (envs n)) ++ [Select (waits n)]
      ++ turns cfg envs waits (S n) k'
  end.

(** How many turns after the [n]-th, among the [k] from it on, the first
    [select] that finds the trigger closed comes. *)
Fixpoint first_closed (waits : nat → select_outcome) (n k : nat) : option nat :=
  match k with
  | O => None
  | S k' =>
      match waits n with
      | TriggerClosed => Some O
      | _ => S <$> first_closed waits (S n) k'
      end
  end.

End Job.

(** ** A fleet to run the model on *)

(** Devices are numbered and named by their number; [bad] tells those
    [NewDevice] fails on and [flaky] those [Generateconfigs] fails on. A
    device model is the number with a flag set once its configuration is
    generated. *)
Definition fleet (bad flaky : nat → bool) : Externals := {|
  NetworkDevice := nat;
  Hostname := pretty;
  Assets := list nat;
  DeviceInventory := id;
  DevicesData := unit;
  Precompute := λ _, tt;
  ReportStats := λ _, [];
  Device := nat * bool;
  NewDevice := λ n _,
    if bad n then inr (errorString ("no model for " +:+ pretty n))
    else inl (n, false);
  Generateconfigs := λ d,
    if flaky d.1 then (d, Some (errorString ("no configuration for " +:+ pretty d.1)))
    else ((d.1, true), None)
|}.

(** Ten devices, the fourth of which has no model. *)
Definition ten_devices : Externals := fleet (λ n, Nat.eqb n 3) (λ _, false).

(** Ten devices, the fourth of which has no model and the sixth of which
    does not generate. *)
Definition ten_devices_flaky : Externals :=
  fleet (λ n, Nat.eqb n 3) (λ n, Nat.eqb n 5).

(** Devices that all have a model and all generate. *)
Definition sound_fleet : Externals := fleet (λ _, false) (λ _, false).

Definition lenient_policy : Config := mkConfig false 60000000000.
Definition strict_policy : Config := mkConfig true 60000000000.

(** A build whose fetch returns [repo], with a clock that ticks every
    millisecond and a schedule that goes round the goroutines; and one whose
    fetch fails. *)
Definition fetched {X : Externals} (repo : Assets) : BuildEnv :=
  mkBuildEnv [] (inl repo) (λ i, Z.of_nat i * 1000000) (λ n, n).

Definition fetch_failed {X : Externals} : BuildEnv :=
  mkBuildEnv [] (inr (errorString "cannot reach the inventory"))
    (λ i, Z.of_nat i * 1000000) (λ n, n).

(** Devices none of which has a model. *)
Definition unmodelled_fleet : Externals := fleet (λ _, true) (λ _, false).

(** Builds of which the first meets two devices and each later one a
    failing fetch, and selects of which the second finds the trigger
    closed. *)
Definition first_build_only (n : nat) : @BuildEnv ten_devices :=
  match n with
  | O => @fetched ten_devices (seq 0 2)
  | _ => @fetch_failed ten_devices
  end.

Definition closed_at_second (n : nat) : select_outcome :=
  match n with
  | O => IntervalElapsed
  | _ => TriggerClosed
  end.

(** As many devices as a [uint32] has values. *)
Definition uint32_values : nat := Z.to_nat (2 ^ 32).

(** ** More to tell of the four functions *)

Section Job_more.
Context `{X : Externals}.

(** The last record of an inventory that bears a hostname. *)
Definition last_named (hostname : string) (inventory : list NetworkDevice) :
    option NetworkDevice :=
  last (filter (λ dev, Hostname dev = hostname) inventory).

(** The message a goroutine of [compute] has sent so far: none before line
    67, that of its error after it. *)
Definition reported_of (t : task) : option event :=
  match t_pc t with
  | AtGenerate | AtReport => None
  | _ => (λ err, Send (generate_error_message err)) <$> t_err t
  end.

(** What the goroutines of [compute] have sent is what each has sent, in
    some order. *)
Definition reports_inv (s : cstate) : Prop :=
  filter (λ e, is_main_event e = false) (c_trace s)
  ≡ₚ omap reported_of (c_tasks s).

(** The devices [compute] has not started a goroutine for are as it
    received them. *)
Definition frame_inv (devices : gmap string (option Device)) (s : cstate) : Prop :=
  ∀ h, h ∉ map t_host (c_tasks s) → c_devices s !! h = devices !! h.

(** The set the loop publishes over the [k] turns from the [n]-th on, from
    the set [repo] published before them. *)
Fixpoint published_after (cfg : Config) (envs : nat → BuildEnv) (n k : nat)
    (repo : option (gmap string (option Device))) :
    option (gmap string (option Device)) :=
  match k with
  | O => repo
  | S k' =>
      published_after cfg envs (S n) k'
        (published (build_cycle cfg (envs n) (mkSup repo [])))
  end.

(** The use of the report channel and of its observer, as a run of calls
    goes: whether the channel is open and whether the observer runs. *)
Record channel_state : Type := mkChannel {
  ch_open : bool;
  ch_watched : bool
}.

(** A call is in order when the channel is made while there is none and no
    observer, the observer is started on an open channel, a message is sent
    on an open channel that is observed, the channel is closed while open,
    the observer is waited for once the channel is closed, and the [select]
    is reached with no channel and no observer left. *)
Definition channel_step (st : channel_state) (c : call) : option channel_state :=
  match c with
  | MakeReportCh =>
      if ch_open st || ch_watched st then None else Some (mkChannel true false)
  | GoWatch =>
      if ch_open st && negb (ch_watched st) then Some (mkChannel true true) else None
  | Pipeline (Send _) =>
      if ch_open st && ch_watched st then Some st else None
  | CloseReportCh =>
      if ch_open st then Some (mkChannel false (ch_watched st)) else None
  | WaitWatch =>
      if negb (ch_open st) && ch_watched st then Some (mkChannel false false) else None
  | Select _ =>
      if ch_open st || ch_watched st then None else Some st
  | _ => Some st
  end.

Fixpoint channel_run (st : channel_state) (cs : list call) : option channel_state :=
  match cs with
  | [] => Some st
  | c :: cs' => channel_step st c ≫= λ st', channel_run st' cs'
  end.

(** The statuses a run of calls gives the report, in order. *)
Definition statuses (cs : list call) : list Status :=
  omap (λ c, match c with UpdateStatus st => Some st | _ => None end) cs.

(** The status a build ends in. *)
Definition final_status (r : build_result) : Status :=
  match rb_error r with
  | Some _ => Failed
  | None => Success
  end.

(** The outcomes a run of calls gives the metrics, in order: [true] for
    [BuildSuccessful], [false] for [BuildFailed]. *)
Definition outcomes (cs : list call) : list bool :=
  omap (λ c, match c with
             | BuildSuccessful => Some true
             | BuildFailed => Some false
             | _ => None
             end) cs.

End Job_more.

(** * Properties *)

Section Precompute_facts.
Context `{X : Externals}.

Lemma precompute_loop_snoc dd acc inv dev :
  precompute_loop dd acc (inv ++ [dev])
  = precompute_step dd (precompute_loop dd acc inv) dev.
Proof. unfold precompute_loop. by rewrite foldl_snoc. Qed.

Lemma precompute_step_devices dd acc dev :
  pre_devices (precompute_step dd acc dev)
  = <[Hostname dev := precompute_entry dd dev]> (pre_devices acc).
Proof.
  unfold precompute_step, precompute_entry.
  by destruct (NewDevice dev dd).
Qed.

Lemma precompute_step_errors dd acc dev :
  pre_errors (precompute_step dd acc dev)
  = match NewDevice_error dd dev with
    | Some err => errors_Join [pre_errors acc; Some err]
    | None => pre_errors acc
    end.
Proof.
  unfold precompute_step, NewDevice_error. by destruct (NewDevice dev dd).
Qed.

Lemma precompute_step_trace dd acc dev :
  pre_trace (precompute_step dd acc dev)
  = pre_trace acc
    ++ match NewDevice_error dd dev with
       | Some err => [Send (precompute_error_message err)]
       | None => []
       end.
Proof.
  unfold precompute_step, NewDevice_error.
  destruct (NewDevice dev dd); simpl; [|done]. by rewrite app_nil_r.
Qed.

(** The keys of the map are the hostnames met, on top of those it had. *)
Lemma precompute_loop_dom dd acc inv h :
  is_Some (pre_devices (precompute_loop dd acc inv) !! h)
  ↔ h ∈ map Hostname inv ∨ is_Some (pre_devices acc !! h).
Proof.
  induction inv as [|dev inv IH] using rev_ind.
  - simpl. rewrite elem_of_nil. tauto.
  - rewrite precompute_loop_snoc, precompute_step_devices, map_app. simpl.
    rewrite elem_of_app, list_elem_of_singleton.
    destruct (decide (Hostname dev = h)) as [->|Hne].
    + rewrite lookup_insert_eq. split; [auto | eauto].
    + rewrite lookup_insert_ne by done. rewrite IH.
      split; [intros [?|?]; auto | intros [[?|?]|?]; auto; congruence].
Qed.

(** A hostname met once is bound to the entry of its device. *)
Lemma precompute_loop_lookup dd acc inv dev :
  NoDup (map Hostname inv) → dev ∈ inv →
  pre_devices (precompute_loop dd acc inv) !! Hostname dev
  = Some (precompute_entry dd dev).
Proof.
  induction inv as [|x inv IH] using rev_ind; intros Hnd Hin.
  - by apply elem_of_nil in Hin.
  - rewrite precompute_loop_snoc, precompute_step_devices.
    rewrite map_app in Hnd. apply NoDup_app in Hnd as (Hnd & Hfresh & _).
    apply elem_of_app in Hin as [Hin|Hin].
    + rewrite lookup_insert_ne; [by apply IH|].
      intros Heq. apply (Hfresh (Hostname dev)).
      * by apply list_elem_of_fmap_2.
      * simpl. rewrite Heq. apply list_elem_of_singleton. done.
    + apply list_elem_of_singleton in Hin as ->. by rewrite lookup_insert_eq.
Qed.

Lemma precompute_loop_size dd inv :
  NoDup (map Hostname inv) →
  size (pre_devices (precompute_loop dd (mkPre ∅ None []) inv)) = length inv.
Proof.
  induction inv as [|x inv IH] using rev_ind; intros Hnd.
  - done.
  - rewrite precompute_loop_snoc, precompute_step_devices.
    rewrite map_app in Hnd. apply NoDup_app in Hnd as (Hnd & Hfresh & _).
    rewrite map_size_insert_None.
    + rewrite IH by done. rewrite length_app. simpl. lia.
    + apply eq_None_not_Some. rewrite precompute_loop_dom. simpl.
      rewrite lookup_empty. intros [Hin|[? [=]]].
      apply (Hfresh _ Hin). simpl. apply list_elem_of_singleton. done.
Qed.

(** The aggregate is the left-nested join of the failures. *)
Lemma precompute_loop_errors dd acc inv :
  pre_errors (precompute_loop dd acc inv)
  = join_all (pre_errors acc) (failures dd inv).
Proof.
  induction inv as [|x inv IH] using rev_ind; [done|].
  rewrite precompute_loop_snoc, precompute_step_errors.
  unfold failures, join_all in *. rewrite omap_app, foldl_app. simpl.
  destruct (NewDevice_error dd x); simpl; by rewrite IH.
Qed.

Lemma precompute_loop_trace dd acc inv :
  pre_trace (precompute_loop dd acc inv)
  = pre_trace acc
    ++ map (λ err, Send (precompute_error_message err)) (failures dd inv).
Proof.
  induction inv as [|x inv IH] using rev_ind.
  - simpl. by rewrite app_nil_r.
  - rewrite precompute_loop_snoc, precompute_step_trace, IH.
    unfold failures. rewrite omap_app, map_app, <- app_assoc. simpl.
    by destruct (NewDevice_error dd x).
Qed.

Lemma errors_Join_snoc agg err :
  ∃ e, errors_Join [agg; Some err] = Some e
       ∧ err ∈ unwrap_all e
       ∧ ∀ a c, agg = Some a → c ∈ unwrap_all a → c ∈ unwrap_all e.
Proof.
  assert (Hself : ∀ e, e ∈ unwrap_all e) by (intros []; simpl; apply list_elem_of_here).
  destruct agg as [a|]; eexists; (split; [reflexivity|]); simpl.
  - split.
    + apply list_elem_of_further. rewrite app_nil_r.
      apply elem_of_app. right. apply Hself.
    + intros a' c [= <-] Hc. apply list_elem_of_further.
      apply elem_of_app. by left.
  - split; [|by intros ? ? [=]].
    apply list_elem_of_further. rewrite app_nil_r. apply Hself.
Qed.

(** Each failure is kept under the aggregate. *)
Lemma join_all_keeps (errs : list error) (agg0 : option error) :
  let agg := join_all agg0 errs in
  (errs ≠ [] → is_Some agg)
  ∧ (∀ err, err ∈ errs → ∃ e, agg = Some e ∧ err ∈ unwrap_all e)
  ∧ (∀ a c, agg0 = Some a → c ∈ unwrap_all a →
       ∃ e, agg = Some e ∧ c ∈ unwrap_all e).
Proof.
  induction errs as [|x errs IH] using rev_ind; simpl.
  - split; [done|]. split; [by intros ? ?%elem_of_nil | eauto].
  - unfold join_all in *. rewrite foldl_snoc.
    destruct IH as (_ & IHin & IH0).
    destruct (errors_Join_snoc
                (foldl (λ agg err, errors_Join [agg; Some err]) agg0 errs) x)
      as (e & -> & Hx & Hkeep).
    split; [eauto|]. split.
    + intros err [Hin| ->%list_elem_of_singleton]%elem_of_app; [|eauto].
      destruct (IHin _ Hin) as (e' & He' & Hc). eauto.
    + intros a c Ha Hc. destruct (IH0 _ _ Ha Hc) as (e' & He' & Hc'). eauto.
Qed.

(** The text of the aggregate is the texts of the failures, one per line. *)
Lemma join_all_text (errs : list error) :
  errs ≠ [] →
  ∃ agg, join_all None errs = Some agg ∧ Error agg = error_lines errs.
Proof.
  induction errs as [|x errs IH] using rev_ind; [done|]. intros _.
  unfold join_all in *. rewrite foldl_snoc.
  destruct errs as [|e rest].
  - simpl. eexists. split; [reflexivity|done].
  - destruct IH as (agg & -> & Htext); [done|].
    exists (joinError [agg; x]). split; [reflexivity|].
    change (Error (joinError [agg; x]))
      with (Error agg +:+ newline +:+ Error x).
    rewrite Htext. simpl. by rewrite foldl_snoc.
Qed.

Lemma join_all_None (errs : list error) :
  join_all None errs = None ↔ errs = [].
Proof.
  split; [|by intros ->].
  intros Hnone. destruct (decide (errs = [])) as [|Hne]; [done|].
  destruct (join_all_keeps errs None) as (Hsome & _).
  destruct (Hsome Hne) as [e He]. simpl in He. congruence.
Qed.

Lemma failures_nil dd inv :
  failures dd inv = [] ↔ ∀ dev, dev ∈ inv → NewDevice_error dd dev = None.
Proof.
  unfold failures. induction inv as [|x inv IH]; simpl.
  - split; [by intros _ ? ?%elem_of_nil | done].
  - destruct (NewDevice_error dd x) eqn:Hx.
    + split; [done|]. intros H. specialize (H x (list_elem_of_here _ _)). congruence.
    + rewrite IH. split.
      * intros H dev [->|Hin]%elem_of_cons; auto.
      * intros H dev Hin. apply H. by apply list_elem_of_further.
Qed.

Lemma failures_elem dd inv dev err :
  dev ∈ inv → NewDevice_error dd dev = Some err → err ∈ failures dd inv.
Proof.
  intros Hin Herr. unfold failures. apply list_elem_of_omap. eauto.
Qed.

End Precompute_facts.

Section Compute_facts.
Context `{X : Externals}.

Lemma sum_list_with_insert {A} (f : A → nat) (l : list A) i x y :
  l !! i = Some x →
  (sum_list_with f (<[i:=y]> l) + f x = sum_list_with f l + f y)%nat.
Proof.
  revert i. induction l as [|a l IH]; intros [|i] Hi; simplify_eq/=; [lia|].
  specialize (IH _ Hi). lia.
Qed.

Lemma sum_list_with_pos {A} (f : A → nat) (l : list A) :
  (0 < sum_list_with f l)%nat → ∃ i x, l !! i = Some x ∧ (0 < f x)%nat.
Proof.
  induction l as [|a l IH]; simpl; [lia|]. intros Hpos.
  destruct (decide (0 < f a)%nat) as [Ha|Ha].
  - by exists 0%nat, a.
  - destruct IH as (i & x & Hi & Hx); [lia|]. by exists (S i), x.
Qed.

Lemma sum_list_with_zero {A} (f : A → nat) (l : list A) x :
  sum_list_with f l = 0%nat → x ∈ l → f x = 0%nat.
Proof.
  induction l as [|a l IH]; simpl; intros Hsum Hin.
  - by apply elem_of_nil in Hin.
  - apply elem_of_cons in Hin as [->|Hin]; [lia|]. apply IH; [lia|done].
Qed.

Lemma is_nil_markers (m1 m2 : gmap string (option Device)) h :
  marker <$> m1 = marker <$> m2 → is_nil m1 h = is_nil m2 h.
Proof.
  intros Heq. assert (H : (marker <$> m1) !! h = (marker <$> m2) !! h) by by rewrite Heq.
  rewrite !lookup_fmap in H. unfold is_nil.
  destruct (m1 !! h) as [[?|]|], (m2 !! h) as [[?|]|]; simplify_eq/=; done.
Qed.

Lemma markers_insert (m : gmap string (option Device)) h d d' :
  m !! h = Some (Some d) → marker <$> <[h := Some d']> m = marker <$> m.
Proof.
  intros Hh. rewrite fmap_insert. apply insert_id.
  by rewrite lookup_fmap, Hh.
Qed.

Lemma compute_init_inv inventory devices :
  compute_inv inventory devices (compute_init inventory devices).
Proof.
  split; simpl; try done.
  - split; [done|lia].
Qed.

Lemma valid_devices_cons devices dev inv :
  valid_devices devices (dev :: inv)
  = (if is_nil devices (Hostname dev) then [] else [dev])
    ++ valid_devices devices inv.
Proof.
  unfold valid_devices. rewrite filter_cons.
  destruct (is_nil devices (Hostname dev)); by case_decide.
Qed.

Lemma main_step_inv inventory devices s s' :
  compute_inv inventory devices s → main_step s = Some s' →
  compute_inv inventory devices s'.
Proof.
  intros [Ht Hwg Hmx Hf Hb Hmk Hmain Hdisp Hret] Hstep.
  unfold main_step in Hstep.
  destruct (c_ret s) eqn:Hr; [done|].
  destruct (c_todo s) as [|dev rest] eqn:Htodo.
  - case_decide as Hwg0; [|done]. simplify_eq. split; simpl; try done.
    intros n e [= <- <-]. done.
  - assert (Hnil : is_nil (c_devices s) (Hostname dev) = is_nil devices (Hostname dev))
      by by apply is_nil_markers.
    rewrite Hnil in Hstep. simpl in Hmain.
    pose proof (eq_refl (main_event devices dev)) as Hev.
    unfold main_event at 2 in Hev.
    rewrite valid_devices_cons in Hdisp.
    destruct (is_nil devices (Hostname dev)) eqn:Hd; simplify_eq;
      split; simpl; try done.
    + rewrite filter_app, filter_cons_True by done.
      rewrite filter_nil, <- app_assoc, <- Hmain, Hev. done.
    + apply Forall_app. split; [done|]. by repeat constructor.
    + rewrite sum_list_with_app. simpl. lia.
    + rewrite sum_list_with_app. simpl. lia.
    + rewrite sum_list_with_app. simpl. rewrite Hf. lia.
    + rewrite sum_list_with_app. simpl. rewrite Hb. do 2 f_equal. lia.
    + rewrite filter_app, filter_cons_True by done.
      rewrite filter_nil, <- app_assoc, <- Hmain, Hev. done.
    + rewrite map_app, <- app_assoc. done.
Qed.

(** The four counts over the goroutines, before and after the [i]-th one
    goes from [t] to [t']. *)
Lemma counts_insert (tasks : list task) i t t' :
  tasks !! i = Some t →
  (sum_list_with live_of (<[i:=t']> tasks) + live_of t
   = sum_list_with live_of tasks + live_of t')%nat
  ∧ (sum_list_with critical_of (<[i:=t']> tasks) + critical_of t
     = sum_list_with critical_of tasks + critical_of t')%nat
  ∧ (sum_list_with failed_of (<[i:=t']> tasks) + failed_of t
     = sum_list_with failed_of tasks + failed_of t')%nat
  ∧ (sum_list_with built_of (<[i:=t']> tasks) + built_of t
     = sum_list_with built_of tasks + built_of t')%nat.
Proof. intros Hi. repeat split; by apply sum_list_with_insert. Qed.

Lemma map_t_host_insert (tasks : list task) i t t' :
  tasks !! i = Some t → t_host t' = t_host t →
  map t_host (<[i:=t']> tasks) = map t_host tasks.
Proof.
  intros Hi Hh. change (t_host <$> <[i:=t']> tasks = t_host <$> tasks).
  rewrite list_fmap_insert, Hh. apply list_insert_id.
  by rewrite list_lookup_fmap, Hi.
Qed.

Lemma built_count_succ (n m : nat) (c : Z) :
  c = Z.of_nat n mod 2 ^ 32 → m = S n →
  uint32_add c 1 = Z.of_nat m mod 2 ^ 32.
Proof.
  intros -> ->. unfold uint32_add. rewrite Zplus_mod_idemp_l.
  f_equal. lia.
Qed.

(** The four counts after the step of a goroutine to [p'] with [err']. *)
Ltac count_step Hcnt p' err' :=
  let Hlive := fresh "Hlive" in
  let Hcrit := fresh "Hcrit" in
  let Hfail := fresh "Hfail" in
  let Hbuilt := fresh "Hbuilt" in
  destruct (Hcnt p' err') as (Hlive & Hcrit & Hfail & Hbuilt);
  cbn [live_of critical_of failed_of built_of t_pc t_err]
    in Hlive, Hcrit, Hfail, Hbuilt.

(** A field of [compute_inv] after a step, from the counts and from the
    field before it: [Hf] is that of [failed], [Hb] that of [builtCount]. *)
Ltac count_goal Hf Hb :=
  first
    [ lia
    | rewrite Hf; lia
    | split; [lia|done]
    | rewrite Hb; do 2 f_equal; lia
    | eapply built_count_succ; [done|lia]
    | match goal with
      | H : context [c_mutex ?s] |- _ => destruct (c_mutex s); lia
      end ].

Lemma task_step_inv inventory devices i s s' :
  compute_inv inventory devices s → task_step i s = Some s' →
  compute_inv inventory devices s'.
Proof.
  intros [Ht Hwg Hmx Hf Hb Hmk Hmain Hdisp Hret] Hstep.
  unfold task_step in Hstep.
  destruct (c_tasks s !! i) as [[h p err]|] eqn:Hi; [|done].
  assert (Hok : task_ok devices (mkTask h p err))
    by (eapply Forall_lookup_1; eauto).
  destruct Hok as [Hnil Hpe]. simpl in Hnil, Hpe, Hstep.
  assert (Hins : ∀ p' err', pc_err_ok p' err' →
            Forall (task_ok devices) (<[i:=mkTask h p' err']> (c_tasks s)))
    by (intros; apply Forall_insert; [done|by split]).
  pose proof (λ p' err', counts_insert _ _ _ (mkTask h p' err') Hi) as Hcnt.
  pose proof (λ p' err', map_t_host_insert _ _ _ (mkTask h p' err') Hi eq_refl)
    as Hhosts.
  assert (Hr : p ≠ Finished → c_ret s = None).
  { intros Hp. destruct (c_ret s) as [[n e]|] eqn:Hr; [|done].
    destruct (Hret n e eq_refl) as (_ & Hwg0 & _).
    assert (live_of (mkTask h p err) = 0%nat) as Hl.
    { eapply sum_list_with_zero; [|by eapply list_elem_of_lookup_2]. lia. }
    unfold live_of in Hl. simpl in Hl. by destruct p. }
  destruct p; simpl in Hstep; try specialize (Hr ltac:(done)).
  - (* [Generateconfigs] is called: the device changes, not its marker *)
    destruct (c_devices s !! h) as [[d|]|] eqn:Hd; try done.
    destruct (Generateconfigs d) as [d' [e'|]] eqn:Hg; simplify_eq.
    + count_step Hcnt AtReport (Some e').
      split; simpl; rewrite ?Hhosts, ?Hr; try done;
        try (apply Hins; simpl; by eauto); try count_goal Hf Hb.
      erewrite markers_insert; eauto.
    + count_step Hcnt AtLockBuilt (@None error).
      split; simpl; rewrite ?Hhosts, ?Hr; try done;
        try (apply Hins; simpl; by eauto); try count_goal Hf Hb.
      erewrite markers_insert; eauto.
  - (* the error message is sent: not an event of the loop *)
    destruct Hpe as [e ->]. simplify_eq. count_step Hcnt AtLockFailed (Some e).
    split; simpl in *; rewrite ?Hhosts, ?Hr; try done;
      try (apply Hins; simpl; by eauto); try count_goal Hf Hb.
    rewrite filter_app, filter_cons_False, filter_nil, app_nil_r; done.
  - (* [mutex.Lock()] *)
    destruct Hpe as [e ->]. destruct (c_mutex s) eqn:Hm; simplify_eq.
    count_step Hcnt AtSetFailed (Some e).
    split; simpl in *; rewrite ?Hhosts, ?Hr; try done;
      try (apply Hins; simpl; by eauto); count_goal Hf Hb.
  - (* [failed = true] *)
    destruct Hpe as [e ->]. simplify_eq. count_step Hcnt AtUnlockFailed (Some e).
    split; simpl in *; rewrite ?Hhosts, ?Hr; try done;
      try (apply Hins; simpl; by eauto); count_goal Hf Hb.
  - (* [mutex.Unlock()] *)
    destruct Hpe as [e ->]. simplify_eq. count_step Hcnt AtDone (Some e).
    split; simpl in *; rewrite ?Hhosts, ?Hr; try done;
      try (apply Hins; simpl; by eauto); count_goal Hf Hb.
  - (* [mutex.Lock()] *)
    simpl in Hpe. subst err. destruct (c_mutex s) eqn:Hm; simplify_eq.
    count_step Hcnt AtAddBuilt (@None error).
    split; simpl in *; rewrite ?Hhosts, ?Hr; try done;
      try (apply Hins; simpl; by eauto); count_goal Hf Hb.
  - (* [builtCount.Add(1)] *)
    simpl in Hpe. subst err. simplify_eq. count_step Hcnt AtUnlockBuilt (@None error).
    split; simpl in *; rewrite ?Hhosts, ?Hr; try done;
      try (apply Hins; simpl; by eauto); count_goal Hf Hb.
  - (* [mutex.Unlock()] *)
    simpl in Hpe. subst err. simplify_eq. count_step Hcnt AtDone (@None error).
    split; simpl in *; rewrite ?Hhosts, ?Hr; try done;
      try (apply Hins; simpl; by eauto); count_goal Hf Hb.
  - (* [wg.Done()] *)
    simplify_eq. count_step Hcnt Finished err.
    split; simpl in *; rewrite ?Hhosts, ?Hr; try done;
      try (apply Hins; simpl; by eauto); destruct err; count_goal Hf Hb.
  - done.
Qed.

Lemma step_at_inv inventory devices th s s' :
  compute_inv inventory devices s → step_at th s = Some s' →
  compute_inv inventory devices s'.
Proof.
  destruct th; simpl; eauto using main_step_inv, task_step_inv.
Qed.

Lemma run_inv inventory devices ths s s' :
  compute_inv inventory devices s → run ths s = Some s' →
  compute_inv inventory devices s'.
Proof.
  revert s. induction ths as [|th ths IH]; simpl; intros s Hinv Hrun.
  - by simplify_eq.
  - destruct (step_at th s) as [s1|] eqn:Hstep; [|done]. simpl in Hrun.
    eauto using step_at_inv.
Qed.

Lemma run_app ths1 ths2 s :
  run (ths1 ++ ths2) s = run ths1 s ≫= run ths2.
Proof.
  revert s. induction ths1 as [|th ths1 IH]; simpl; intros s; [done|].
  destruct (step_at th s); simpl; [apply IH|done].
Qed.

(** *** No deadlock: a call that has not returned can make a step *)

Lemma task_enabled inventory devices s i t :
  compute_inv inventory devices s → c_tasks s !! i = Some t →
  t_pc t ≠ Finished → (critical_of t = 1%nat ∨ c_mutex s = false) →
  is_Some (task_step i s).
Proof.
  intros Hinv Hi Hpc Hmx. unfold task_step. rewrite Hi.
  destruct t as [h p err]. simpl in *.
  assert (Hok : task_ok devices (mkTask h p err))
    by (eapply Forall_lookup_1; [apply Hinv|done]).
  destruct Hok as [Hnil Hpe]. simpl in Hnil, Hpe.
  destruct p; simpl in *; try done; eauto.
  - rewrite <- (is_nil_markers _ _ _ (inv_markers _ _ _ Hinv)) in Hnil.
    unfold is_nil in Hnil.
    destruct (c_devices s !! h) as [[d|]|]; try done.
    destruct (Generateconfigs d). eauto.
  - destruct Hpe as [e ->]. eauto.
  - destruct Hmx as [Hc| ->]; [done|eauto].
  - destruct Hmx as [Hc| ->]; [done|eauto].
Qed.

Lemma progress inventory devices s :
  compute_inv inventory devices s → c_ret s = None →
  ∃ th, is_Some (step_at th s).
Proof.
  intros Hinv Hr.
  destruct (c_todo s) as [|dev rest] eqn:Htodo.
  - destruct (decide (c_wg s = 0)) as [Hwg|Hwg].
    { exists Main. simpl. unfold main_step. rewrite Hr, Htodo.
      case_decide; [eauto|done]. }
    destruct (decide (0 < sum_list_with critical_of (c_tasks s))%nat) as [Hc|Hc].
    + apply sum_list_with_pos in Hc as (i & t & Hi & Ht).
      exists (Worker i). simpl. eapply task_enabled; eauto.
      * intros Hp. unfold critical_of in Ht. rewrite Hp in Ht. lia.
      * left. unfold critical_of in *. destruct (t_pc t); lia.
    + assert (0 < sum_list_with live_of (c_tasks s))%nat as Hl.
      { pose proof (inv_wg _ _ _ Hinv). lia. }
      apply sum_list_with_pos in Hl as (i & t & Hi & Ht).
      exists (Worker i). simpl. eapply task_enabled; eauto.
      * intros Hp. unfold live_of in Ht. rewrite Hp in Ht. lia.
      * right. pose proof (inv_mutex _ _ _ Hinv) as Hm.
        destruct (c_mutex s); [lia|done].
  - exists Main. simpl. unfold main_step. rewrite Hr, Htodo.
    destruct (is_nil _ _); eauto.
Qed.

(** *** Termination: every step brings the return nearer *)

Lemma step_at_measure th s s' :
  step_at th s = Some s' → (measure s' < measure s)%nat.
Proof.
  destruct th as [|i]; simpl.
  - unfold main_step, measure.
    destruct (c_ret s); [done|].
    destruct (c_todo s) as [|dev rest].
    + case_decide; [|done]. intros [= <-]. simpl. lia.
    + destruct (is_nil _ _); intros [= <-]; simpl; [lia|].
      rewrite sum_list_with_app. simpl. lia.
  - unfold task_step, measure.
    destruct (c_tasks s !! i) as [[h p err]|] eqn:Hi; [|done].
    pose proof (λ t', sum_list_with_insert (λ t, steps_left (t_pc t)) _ _ _ t' Hi)
      as Hsum. simpl in Hsum.
    destruct p; simpl; try done.
    + destruct (c_devices s !! h) as [[d|]|]; try done.
      destruct (Generateconfigs d) as [d' e']. intros [= <-]. simpl.
      specialize (Hsum (mkTask h (match e' with
                                  | Some _ => AtReport
                                  | None => AtLockBuilt
                                  end) e')).
      simpl in Hsum. destruct e'; simpl in Hsum; lia.
    + destruct err; [|done]. intros [= <-]. simpl.
      specialize (Hsum (mkTask h AtLockFailed (Some e))). simpl in Hsum. lia.
    + destruct (c_mutex s); [done|]. intros [= <-]. simpl.
      specialize (Hsum (mkTask h AtSetFailed err)). simpl in Hsum. lia.
    + intros [= <-]. simpl.
      specialize (Hsum (mkTask h AtUnlockFailed err)). simpl in Hsum. lia.
    + intros [= <-]. simpl.
      specialize (Hsum (mkTask h AtDone err)). simpl in Hsum. lia.
    + destruct (c_mutex s); [done|]. intros [= <-]. simpl.
      specialize (Hsum (mkTask h AtAddBuilt err)). simpl in Hsum. lia.
    + intros [= <-]. simpl.
      specialize (Hsum (mkTask h AtUnlockBuilt err)). simpl in Hsum. lia.
    + intros [= <-]. simpl.
      specialize (Hsum (mkTask h AtDone err)). simpl in Hsum. lia.
    + intros [= <-]. simpl.
      specialize (Hsum (mkTask h Finished err)). simpl in Hsum. lia.
Qed.

Lemma run_length ths s s' :
  run ths s = Some s' → (length ths + measure s' ≤ measure s)%nat.
Proof.
  revert s. induction ths as [|th ths IH]; simpl; intros s Hrun.
  - simplify_eq. lia.
  - destruct (step_at th s) as [s1|] eqn:Hstep; [|done]. simpl in Hrun.
    apply step_at_measure in Hstep. apply IH in Hrun. lia.
Qed.

(** *** [compute] under a schedule is a run that returns *)

Lemma pick_enabled k s th : pick k s = Some th → is_Some (step_at th s).
Proof.
  unfold pick, enabled. intros Hk.
  apply list_elem_of_lookup_2, list_elem_of_filter in Hk. tauto.
Qed.

Lemma pick_some k s th : is_Some (step_at th s) → is_Some (pick k s).
Proof.
  intros Hth. unfold pick. apply lookup_lt_is_Some.
  assert (th ∈ enabled s) as Hin.
  { unfold enabled. apply list_elem_of_filter. split; [done|].
    destruct th as [|i]; [apply list_elem_of_here|].
    apply list_elem_of_further, list_elem_of_fmap_2, elem_of_seq.
    destruct Hth as [s' Hs']. simpl in Hs'. unfold task_step in Hs'.
    destruct (c_tasks s !! i) eqn:Hi; [|done].
    apply lookup_lt_Some in Hi. lia. }
  destruct (enabled s); [by apply elem_of_nil in Hin|].
  apply Nat.mod_upper_bound. done.
Qed.

Lemma exec_run fuel sched n s :
  ∃ ths, run ths s = Some (exec fuel sched n s).
Proof.
  revert n s. induction fuel as [|fuel IH]; intros n s; simpl.
  - by exists [].
  - destruct (pick (sched n) s) as [th|] eqn:Hpick; simpl; [|by exists []].
    destruct (step_at th s) as [s1|] eqn:Hstep; [|by exists []].
    destruct (IH (S n) s1) as [ths Hths].
    exists (th :: ths). simpl. by rewrite Hstep.
Qed.

Lemma exec_returns inventory devices fuel sched n s :
  compute_inv inventory devices s → (measure s ≤ fuel)%nat →
  is_Some (c_ret (exec fuel sched n s)).
Proof.
  revert n s. induction fuel as [|fuel IH]; intros n s Hinv Hfuel; simpl.
  - unfold measure in Hfuel. destruct (c_ret s); [eauto|lia].
  - destruct (c_ret s) as [r|] eqn:Hr.
    { destruct (pick (sched n) s) as [th|] eqn:Hpick; simpl; [|by rewrite Hr].
      apply pick_enabled in Hpick as [s1 Hs1]. exfalso.
      destruct r as [c e]. destruct (inv_ret _ _ _ Hinv c e Hr) as (Htodo & Hwg & _).
      destruct th as [|i]; simpl in Hs1.
      - unfold main_step in Hs1. by rewrite Hr in Hs1.
      - unfold task_step in Hs1.
        destruct (c_tasks s !! i) as [t|] eqn:Hi; [|done].
        assert (live_of t = 0%nat) as Hl.
        { eapply sum_list_with_zero; [|by eapply list_elem_of_lookup_2].
          pose proof (inv_wg _ _ _ Hinv). lia. }
        unfold live_of in Hl. by destruct (t_pc t). }
    destruct (progress _ _ _ Hinv Hr) as [th Hth].
    destruct (pick_some (sched n) _ _ Hth) as [th' Hpick].
    rewrite Hpick. simpl.
    destruct (pick_enabled _ _ _ Hpick) as [s1 Hs1]. rewrite Hs1.
    apply IH; [by eapply step_at_inv|].
    apply step_at_measure in Hs1. lia.
Qed.

(** [compute] returns, whatever the schedule, and its final state is that
    of a run. *)
Lemma compute_returns sched ingestorRepo devices :
  let r := compute sched ingestorRepo devices in
  c_ret (cr_final r) = Some (cr_built r, cr_error r)
  ∧ cr_devices r = c_devices (cr_final r)
  ∧ cr_trace r = c_trace (cr_final r)
  ∧ ∃ ths,
      run ths (compute_init (DeviceInventory ingestorRepo) devices)
      = Some (cr_final r).
Proof.
  unfold compute. cbv zeta.
  set (s0 := compute_init (DeviceInventory ingestorRepo) devices).
  destruct (exec_returns _ _ (measure s0) sched 0%nat s0
              (compute_init_inv _ _) (le_n _)) as [[c e] Hret].
  cbn [cr_final cr_built cr_error cr_devices cr_trace].
  rewrite Hret. repeat split. apply exec_run.
Qed.

Lemma compute_final_inv sched ingestorRepo devices :
  compute_inv (DeviceInventory ingestorRepo) devices
    (cr_final (compute sched ingestorRepo devices)).
Proof.
  destruct (compute_returns sched ingestorRepo devices) as (_ & _ & _ & ths & Hrun).
  eapply run_inv; [apply compute_init_inv|done].
Qed.

(** *** What holds of a call that has returned *)

Lemma sum_list_with_indicator {A} (f : A → nat) (P : A → Prop)
    `{!∀ x, Decision (P x)} (l : list A) :
  (∀ x, x ∈ l → f x = if decide (P x) then 1%nat else 0%nat) →
  sum_list_with f l = length (filter P l).
Proof.
  induction l as [|a l IH]; intros Hf; [done|].
  simpl. rewrite filter_cons, (Hf a) by apply list_elem_of_here.
  rewrite IH by (intros; apply Hf; by apply list_elem_of_further).
  by case_decide.
Qed.

Lemma returned_finished inventory devices s t :
  compute_inv inventory devices s → is_Some (c_ret s) →
  t ∈ c_tasks s → t_pc t = Finished.
Proof.
  intros Hinv [[n e] Hr] Hin.
  destruct (inv_ret _ _ _ Hinv n e Hr) as (_ & Hwg & _).
  assert (live_of t = 0%nat) as Hl.
  { eapply sum_list_with_zero; [|done]. pose proof (inv_wg _ _ _ Hinv). lia. }
  unfold live_of in Hl. by destruct (t_pc t).
Qed.

Lemma returned_built inventory devices s :
  compute_inv inventory devices s → is_Some (c_ret s) →
  sum_list_with built_of (c_tasks s) = length (succeeded s).
Proof.
  intros Hinv Hr. apply sum_list_with_indicator. intros t Hin.
  unfold built_of. rewrite (returned_finished _ _ _ _ Hinv Hr Hin).
  destruct (t_err t); by case_decide.
Qed.

Lemma returned_failed inventory devices s :
  compute_inv inventory devices s → is_Some (c_ret s) →
  sum_list_with failed_of (c_tasks s) = length (failed_tasks s).
Proof.
  intros Hinv Hr. apply sum_list_with_indicator. intros t Hin.
  unfold failed_of. rewrite (returned_finished _ _ _ _ Hinv Hr Hin).
  destruct (t_err t); by case_decide.
Qed.

Lemma tasks_split s :
  (length (succeeded s) + length (failed_tasks s) = length (c_tasks s))%nat.
Proof.
  unfold succeeded, failed_tasks.
  induction (c_tasks s) as [|t l IH]; [done|].
  rewrite !filter_cons. simpl.
  destruct (decide (t_err t = None)), (decide (t_err t ≠ None)); simpl; try lia; done.
Qed.

Lemma devices_split devices inventory :
  (length (valid_devices devices inventory)
   + length (marked_devices devices inventory) = length inventory)%nat.
Proof.
  unfold valid_devices, marked_devices.
  induction inventory as [|dev l IH]; [done|].
  rewrite !filter_cons. simpl.
  destruct (is_nil devices (Hostname dev)); repeat case_decide; simpl; try lia; done.
Qed.

Lemma inv_task_count inventory devices s :
  compute_inv inventory devices s → c_todo s = [] →
  (length (c_tasks s) + length (marked_devices devices inventory)
   = length inventory)%nat.
Proof.
  intros Hinv Htodo. pose proof (inv_dispatched _ _ _ Hinv) as Hd.
  rewrite Htodo in Hd. unfold valid_devices at 1 in Hd.
  rewrite filter_nil, app_nil_r in Hd.
  apply (f_equal length) in Hd. rewrite !length_map in Hd.
  pose proof (devices_split devices inventory). lia.
Qed.

(** The values a run returns. *)
Lemma returned_values inventory devices s n e :
  compute_inv inventory devices s → c_ret s = Some (n, e) →
  n = Z.of_nat (length (succeeded s)) mod 2 ^ 32
  ∧ (e = None ↔ failed_tasks s = [])
  ∧ (e = None ∨ e = Some conversion_failed)
  ∧ (length (c_tasks s) + length (marked_devices devices inventory)
     = length inventory)%nat
  ∧ map t_host (c_tasks s) = map Hostname (valid_devices devices inventory)
  ∧ filter (λ ev, is_main_event ev = true) (c_trace s)
    = map (main_event devices) inventory.
Proof.
  intros Hinv Hr.
  destruct (inv_ret _ _ _ Hinv n e Hr) as (Htodo & Hwg & -> & ->).
  assert (is_Some (c_ret s)) as Hs by eauto.
  split; [|split; [|split; [|split; [|split]]]].
  - rewrite (inv_built _ _ _ Hinv). by erewrite returned_built.
  - pose proof (inv_failed _ _ _ Hinv) as Hf.
    erewrite returned_failed in Hf by done.
    destruct (c_failed s), (failed_tasks s); simpl in *; split; try done.
    + intros _. destruct Hf as [Hf _]. specialize (Hf eq_refl). lia.
    + intros _. destruct Hf as [_ Hf]. by specialize (Hf ltac:(lia)).
  - destruct (c_failed s); auto.
  - by eapply inv_task_count.
  - pose proof (inv_dispatched _ _ _ Hinv) as Hd. rewrite Htodo in Hd.
    unfold valid_devices at 1 in Hd. by rewrite filter_nil, app_nil_r in Hd.
  - pose proof (inv_main _ _ _ Hinv) as Hm. rewrite Htodo in Hm.
    by rewrite app_nil_r in Hm.
Qed.

(** *** One goroutine per device, when hostnames are distinct *)

Lemma valid_devices_NoDup devices inventory :
  NoDup (map Hostname inventory) →
  NoDup (map Hostname (valid_devices devices inventory)).
Proof.
  intros Hnd. eapply sublist_NoDup; [exact Hnd|].
  apply (fmap_sublist Hostname). apply sublist_filter.
Qed.

Lemma tasks_NoDup inventory devices s :
  NoDup (map Hostname inventory) → compute_inv inventory devices s →
  NoDup (map t_host (c_tasks s)).
Proof.
  intros Hnd Hinv. pose proof (valid_devices_NoDup devices _ Hnd) as Hv.
  rewrite <- (inv_dispatched _ _ _ Hinv) in Hv.
  by apply NoDup_app in Hv as (? & _).
Qed.

Lemma task_outcome_goto devices current h p p' err :
  p ≠ AtGenerate → p' ≠ AtGenerate →
  task_outcome devices current (mkTask h p err) →
  task_outcome devices current (mkTask h p' err).
Proof.
  unfold task_outcome. simpl. intros Hp Hp'.
  destruct (devices !! h) as [[d|]|]; [|done..].
  by destruct p, p'.
Qed.

Lemma outcome_goto devices s i h p p' err s' :
  outcome_inv devices s → c_tasks s !! i = Some (mkTask h p err) →
  p ≠ AtGenerate → p' ≠ AtGenerate →
  c_tasks s' = <[i := mkTask h p' err]> (c_tasks s) →
  c_devices s' = c_devices s →
  outcome_inv devices s'.
Proof.
  intros [Ht Hrest] Hi Hp Hp' Htasks Hdev. split; rewrite Htasks, Hdev.
  - apply Forall_insert; [done|].
    eapply task_outcome_goto; [exact Hp|exact Hp'|].
    eapply Forall_lookup_1; eauto.
  - by erewrite map_t_host_insert.
Qed.

Lemma step_at_outcome inventory devices th s s' :
  NoDup (map Hostname inventory) →
  compute_inv inventory devices s → outcome_inv devices s →
  step_at th s = Some s' → outcome_inv devices s'.
Proof.
  intros Hnd Hinv Hout Hstep.
  pose proof (tasks_NoDup _ _ _ Hnd (step_at_inv _ _ _ _ _ Hinv Hstep)) as Hnd'.
  destruct th as [|i]; simpl in Hstep.
  - unfold main_step in Hstep. destruct (c_ret s); [done|].
    destruct (c_todo s) as [|dev rest].
    { case_decide; [|done]. simplify_eq. by destruct Hout. }
    destruct (is_nil (c_devices s) (Hostname dev)) eqn:Hnil; simplify_eq.
    { by destruct Hout. }
    destruct Hout as [Ht Hrest]. simpl in Hnd'.
    rewrite map_app in Hnd'. apply NoDup_app in Hnd' as (_ & Hfresh & _).
    assert (Hostname dev ∉ map t_host (c_tasks s)) as Hnew.
    { intros Hin. apply (Hfresh _ Hin). simpl. apply list_elem_of_here. }
    split; simpl.
    + apply Forall_app. split; [done|]. constructor; [|done].
      unfold task_outcome. simpl. rewrite <- (Hrest _ Hnew).
      unfold is_nil in Hnil. by destruct (c_devices s !! Hostname dev) as [[d|]|].
    + intros h Hh. apply Hrest. intros Hin. apply Hh.
      rewrite map_app. apply elem_of_app. by left.
  - unfold task_step in Hstep.
    destruct (c_tasks s !! i) as [[h p err]|] eqn:Hi; [|done].
    destruct p; simpl in Hstep; try done;
      try (destruct err; [|done]); try (destruct (c_mutex s); [done|]);
      try (simplify_eq;
           eapply outcome_goto;
             [exact Hout|exact Hi|done| |simpl; reflexivity|done]; done).
    destruct (c_devices s !! h) as [[d|]|] eqn:Hd; try done.
    destruct (Generateconfigs d) as [d' e'] eqn:Hg. simplify_eq.
    destruct Hout as [Ht Hrest].
    pose proof (tasks_NoDup _ _ _ Hnd Hinv) as Hnds.
    pose proof (Forall_lookup_1 _ _ _ _ Ht Hi) as Hti.
    unfold task_outcome in Hti. simpl in Hti.
    destruct (devices !! h) as [[d0|]|] eqn:Hd0; try done.
    rewrite Hd in Hti. simplify_eq.
    split; simpl.
    + apply Forall_lookup_2. intros j t Hj.
      apply list_lookup_insert_Some in Hj as [(-> & <- & Hlt)|(Hne & Hj)].
      * unfold task_outcome. simpl. rewrite Hd0, lookup_insert_eq, Hg.
        by destruct e'.
      * assert (t_host t ≠ h) as Hh.
        { intros <-. apply Hne.
          eapply (NoDup_lookup _ _ _ _ Hnds).
          - rewrite list_lookup_fmap, Hi. done.
          - rewrite list_lookup_fmap, Hj. done. }
        pose proof (Forall_lookup_1 _ _ _ _ Ht Hj) as Htj.
        unfold task_outcome in *. by rewrite lookup_insert_ne.
    + erewrite map_t_host_insert by done.
      intros h' Hh'. rewrite lookup_insert_ne; [by apply Hrest|].
      intros <-. apply Hh'. apply list_elem_of_lookup. exists i.
      by rewrite list_lookup_fmap, Hi.
Qed.

Lemma run_outcome inventory devices ths s s' :
  NoDup (map Hostname inventory) →
  compute_inv inventory devices s → outcome_inv devices s →
  run ths s = Some s' → outcome_inv devices s'.
Proof.
  intros Hnd. revert s. induction ths as [|th ths IH]; simpl; intros s Hinv Hout Hrun.
  - by simplify_eq.
  - destruct (step_at th s) as [s1|] eqn:Hstep; [|done]. simpl in Hrun.
    eapply IH; [by eapply step_at_inv|by eapply step_at_outcome|done].
Qed.

Lemma compute_init_outcome inventory devices :
  outcome_inv devices (compute_init inventory devices).
Proof. split; simpl; [constructor|done]. Qed.

(** *** The values returned, told from the devices alone *)

Lemma returned_task_outcome inventory devices s t :
  compute_inv inventory devices s → outcome_inv devices s →
  is_Some (c_ret s) → t ∈ c_tasks s →
  ∃ d, devices !! t_host t = Some (Some d)
       ∧ t_err t = (Generateconfigs d).2
       ∧ c_devices s !! t_host t = Some (Some (Generateconfigs d).1).
Proof.
  intros Hinv [Ht _] Hr Hin.
  pose proof (returned_finished _ _ _ _ Hinv Hr Hin) as Hpc.
  rewrite Forall_forall in Ht. specialize (Ht _ Hin).
  unfold task_outcome in Ht. rewrite Hpc in Ht.
  destruct (devices !! t_host t) as [[d|]|]; [|done..]. eauto.
Qed.

Lemma generates_valid devices h :
  generates devices h = true → is_nil devices h = false.
Proof.
  unfold generates, is_nil. by destruct (devices !! h) as [[d|]|].
Qed.

Lemma built_devices_valid devices inventory :
  built_devices devices (valid_devices devices inventory)
  = built_devices devices inventory.
Proof.
  unfold built_devices, valid_devices. apply list_filter_filter_l.
  intros dev. apply generates_valid.
Qed.

Lemma filter_iff_in {A} (P Q : A → Prop) `{!∀ x, Decision (P x)}
    `{!∀ x, Decision (Q x)} (l : list A) :
  (∀ x, x ∈ l → P x ↔ Q x) → filter P l = filter Q l.
Proof.
  induction l as [|a l IH]; intros Hpq; [done|].
  rewrite !filter_cons, IH by (intros; apply Hpq; by apply list_elem_of_further).
  apply decide_ext, Hpq, list_elem_of_here.
Qed.

Lemma length_filter_map {A B} (f : A → B) (P : B → Prop) (Q : A → Prop)
    `{!∀ y, Decision (P y)} `{!∀ x, Decision (Q x)} (l : list A) :
  (∀ x, Q x ↔ P (f x)) →
  length (filter P (map f l)) = length (filter Q l).
Proof.
  intros Hpq. induction l as [|a l IH]; [done|].
  simpl. rewrite !filter_cons.
  destruct (decide (P (f a))) as [Hp|Hp], (decide (Q a)) as [Hq|Hq];
    simpl; rewrite ?IH; try done; exfalso;
    [apply Hq; by apply Hpq | apply Hp; by apply Hpq].
Qed.

Lemma returned_succeeded inventory devices s :
  compute_inv inventory devices s → outcome_inv devices s →
  is_Some (c_ret s) →
  length (succeeded s) = length (built_devices devices inventory).
Proof.
  intros Hinv Hout Hr.
  assert (succeeded s
          = filter (λ t, generates devices (t_host t) = true) (c_tasks s)) as ->.
  { unfold succeeded. apply filter_iff_in. intros t Hin.
    destruct (returned_task_outcome _ _ _ _ Hinv Hout Hr Hin) as (d & Hd & He & _).
    unfold generates. rewrite Hd, He.
    destruct ((Generateconfigs d).2); split; done. }
  destruct Hr as [[n e] Hr].
  destruct (returned_values _ _ _ _ _ Hinv Hr) as (_ & _ & _ & _ & Hhosts & _).
  rewrite <- built_devices_valid. unfold built_devices.
  transitivity
    (length (filter (λ h, generates devices h = true) (map t_host (c_tasks s)))).
  { symmetry. by apply length_filter_map. }
  rewrite Hhosts. by apply length_filter_map.
Qed.

Lemma returned_devices inventory devices s :
  NoDup (map Hostname inventory) →
  compute_inv inventory devices s → outcome_inv devices s →
  is_Some (c_ret s) →
  (∀ h, is_Some (devices !! h) → h ∈ map Hostname inventory) →
  c_devices s = (generated <$> devices).
Proof.
  intros Hnd Hinv Hout Hr Hdom. apply map_eq. intros h.
  rewrite lookup_fmap.
  destruct (decide (h ∈ map t_host (c_tasks s))) as [Hin|Hin].
  - change (h ∈ t_host <$> c_tasks s) in Hin.
    apply list_elem_of_fmap in Hin as (t & -> & Hin).
    destruct (returned_task_outcome _ _ _ _ Hinv Hout Hr Hin) as (d & Hd & _ & Hc).
    by rewrite Hc, Hd.
  - rewrite (out_rest _ _ Hout _ Hin).
    destruct (devices !! h) as [[d|]|] eqn:Hd; [|done..].
    exfalso. apply Hin. destruct Hr as [[n e] Hr].
    destruct (returned_values _ _ _ _ _ Hinv Hr) as (_ & _ & _ & _ & -> & _).
    assert (h ∈ map Hostname inventory) as Hh by (apply Hdom; eauto).
    change (h ∈ Hostname <$> inventory) in Hh.
    apply list_elem_of_fmap in Hh as (dev & -> & Hdev).
    apply (list_elem_of_fmap_2 Hostname). apply list_elem_of_filter.
    split; [|done]. unfold is_nil. by rewrite Hd.
Qed.

(** Where [Generateconfigs] never fails, no goroutine has an error. *)
Lemma run_no_error ths s s' :
  (∀ d, (Generateconfigs d).2 = None) →
  Forall (λ t, t_err t = None) (c_tasks s) → run ths s = Some s' →
  Forall (λ t, t_err t = None) (c_tasks s').
Proof.
  intros Hgen. revert s. induction ths as [|th ths IH]; simpl; intros s Hall Hrun.
  - by simplify_eq.
  - destruct (step_at th s) as [s1|] eqn:Hstep; [|done]. simpl in Hrun.
    apply (IH s1); [|done]. clear Hrun IH.
    destruct th as [|i]; simpl in Hstep.
    + unfold main_step in Hstep. destruct (c_ret s); [done|].
      destruct (c_todo s); [case_decide; by simplify_eq|].
      destruct (is_nil _ _); simplify_eq; simpl; [done|].
      apply Forall_app. split; [done|]. by constructor.
    + unfold task_step in Hstep.
      destruct (c_tasks s !! i) as [[h p err]|] eqn:Hi; [|done].
      pose proof (Forall_lookup_1 _ _ _ _ Hall Hi) as Herr. simpl in Herr. subst err.
      destruct p; simpl in Hstep; try done;
        try (destruct (c_mutex s); [done|]);
        try (simplify_eq; simpl; by apply Forall_insert).
      destruct (c_devices s !! h) as [[d|]|]; try done.
      pose proof (Hgen d) as Hd. destruct (Generateconfigs d) as [d' e'].
      simpl in Hd. subst e'. simplify_eq. simpl. by apply Forall_insert.
Qed.

Lemma filter_none {A} (P : A → Prop) `{!∀ x, Decision (P x)} (l : list A) :
  (∀ x, x ∈ l → ¬ P x) → filter P l = [].
Proof.
  induction l as [|a l IH]; intros Hl; [done|].
  rewrite filter_cons, decide_False by (apply Hl, list_elem_of_here).
  apply IH. intros x Hx. by apply Hl, list_elem_of_further.
Qed.

Lemma task_count_minus inventory devices s :
  compute_inv inventory devices s → is_Some (c_ret s) →
  length (c_tasks s)
  = (length inventory - length (marked_devices devices inventory))%nat.
Proof.
  intros Hinv [[n e] Hr].
  destruct (returned_values _ _ _ _ _ Hinv Hr) as (_ & _ & _ & Hlen & _). lia.
Qed.

Lemma go_events devices inventory :
  length (filter (λ e, is_go e = true) (map (main_event devices) inventory))
  = length (valid_devices devices inventory).
Proof.
  unfold valid_devices, main_event.
  induction inventory as [|dev l IH]; [done|].
  simpl. rewrite !filter_cons.
  destruct (is_nil devices (Hostname dev)); simpl; repeat case_decide;
    simpl; try done; by rewrite IH.
Qed.

(** Where every device has a model and [Generateconfigs] never fails, each
    device gets a goroutine, none fails, and the count is the number of
    devices as a [uint32] counts it. *)
Lemma compute_all_built sched ingestorRepo devices :
  (∀ d, (Generateconfigs d).2 = None) →
  (∀ dev, dev ∈ DeviceInventory ingestorRepo →
     is_nil devices (Hostname dev) = false) →
  let r := compute sched ingestorRepo devices in
  length (c_tasks (cr_final r)) = length (DeviceInventory ingestorRepo)
  ∧ length (succeeded (cr_final r)) = length (DeviceInventory ingestorRepo)
  ∧ cr_error r = None
  ∧ cr_built r = Z.of_nat (length (DeviceInventory ingestorRepo)) mod 2 ^ 32.
Proof.
  intros Hgen Hvalid r.
  destruct (compute_returns sched ingestorRepo devices) as (Hret & _ & _ & ths & Hrun).
  pose proof (compute_final_inv sched ingestorRepo devices) as Hinv.
  fold r in Hret, Hinv, Hrun. clearbody r.
  destruct (returned_values _ _ _ _ _ Hinv Hret) as (Hn & He & _ & Hlen & _).
  assert (marked_devices devices (DeviceInventory ingestorRepo) = []) as Hm.
  { apply filter_none. intros dev Hin. rewrite (Hvalid dev Hin). done. }
  rewrite Hm in Hlen. simpl in Hlen.
  assert (failed_tasks (cr_final r) = []) as Hf.
  { apply filter_none. intros t Hin Ht. apply Ht.
    assert (Forall (λ t, t_err t = None)
              (c_tasks (compute_init (DeviceInventory ingestorRepo) devices)))
      as Hinit by constructor.
    pose proof (run_no_error _ _ _ Hgen Hinit Hrun) as Hall.
    rewrite Forall_forall in Hall. by apply Hall. }
  pose proof (tasks_split (cr_final r)) as Hsplit. rewrite Hf in Hsplit.
  simpl in Hsplit.
  assert (length (succeeded (cr_final r)) = length (DeviceInventory ingestorRepo))
    as Hok by lia.
  split; [lia|]. split; [done|]. split; [by apply He|]. by rewrite Hn, Hok.
Qed.

End Compute_facts.

Section Schedules.
Context `{X : Externals}.

(** *** Every run is the run of a schedule *)

Lemma returned_no_step inventory devices s th :
  compute_inv inventory devices s → is_Some (c_ret s) → step_at th s = None.
Proof.
  intros Hinv Hr. destruct th as [|i]; simpl.
  - unfold main_step. by destruct Hr as [r ->].
  - unfold task_step. destruct (c_tasks s !! i) as [t|] eqn:Hi; [|done].
    rewrite (returned_finished _ _ _ _ Hinv Hr (list_elem_of_lookup_2 _ _ _ Hi)).
    done.
Qed.

Lemma exec_returned inventory devices fuel sched n s :
  compute_inv inventory devices s → is_Some (c_ret s) →
  exec fuel sched n s = s.
Proof.
  intros Hinv Hr. destruct fuel as [|fuel]; [done|]. simpl.
  destruct (pick (sched n) s) as [th|]; simpl; [|done].
  by rewrite (returned_no_step _ _ _ th Hinv Hr).
Qed.

Lemma exec_ext fuel sched sched' n s :
  (∀ m, (n ≤ m)%nat → sched m = sched' m) →
  exec fuel sched n s = exec fuel sched' n s.
Proof.
  revert n s. induction fuel as [|fuel IH]; intros n s Hext; [done|].
  simpl. rewrite (Hext n) by lia.
  destruct (pick (sched' n) s ≫= λ th, step_at th s); [|done].
  apply IH. intros m Hm. apply Hext. lia.
Qed.

Lemma pick_index s th :
  is_Some (step_at th s) → ∃ k, pick k s = Some th.
Proof.
  intros Hth.
  assert (th ∈ enabled s) as Hin.
  { unfold enabled. apply list_elem_of_filter. split; [done|].
    destruct th as [|i]; [apply list_elem_of_here|].
    apply list_elem_of_further, list_elem_of_fmap_2, elem_of_seq.
    destruct Hth as [s' Hs']. simpl in Hs'. unfold task_step in Hs'.
    destruct (c_tasks s !! i) eqn:Hi; [|done].
    apply lookup_lt_Some in Hi. lia. }
  apply list_elem_of_lookup in Hin as [k Hk]. exists k. unfold pick.
  by rewrite Nat.mod_small by (by eapply lookup_lt_Some).
Qed.

Lemma run_is_scheduled inventory devices ths s0 s fuel n :
  compute_inv inventory devices s0 → run ths s0 = Some s →
  is_Some (c_ret s) → (length ths ≤ fuel)%nat →
  ∃ sched, exec fuel sched n s0 = s.
Proof.
  revert s0 fuel n. induction ths as [|th ths IH]; intros s0 fuel n Hinv Hrun Hr Hfuel.
  - simpl in Hrun. simplify_eq. exists (λ _, 0%nat). by eapply exec_returned.
  - simpl in Hrun, Hfuel.
    destruct (step_at th s0) as [s1|] eqn:Hstep; [|done]. simpl in Hrun.
    destruct fuel as [|fuel]; [lia|].
    destruct (IH s1 fuel (S n)) as [sched' Hsched'];
      [by eapply step_at_inv|done|done|lia|].
    destruct (pick_index s0 th) as [k Hk]; [by rewrite Hstep|].
    exists (λ m, if decide (m = n) then k else sched' m). simpl.
    rewrite decide_True by done. rewrite Hk. simpl. rewrite Hstep.
    rewrite <- Hsched'. apply exec_ext. intros m Hm.
    rewrite decide_False by lia. done.
Qed.

(** The runs of [compute] that return are those [compute] makes under some
    schedule. *)
Lemma every_run_is_scheduled ingestorRepo devices ths s :
  run ths (compute_init (DeviceInventory ingestorRepo) devices) = Some s →
  is_Some (c_ret s) →
  ∃ sched, cr_final (compute sched ingestorRepo devices) = s.
Proof.
  intros Hrun Hr. unfold compute. cbv zeta. cbn [cr_final].
  eapply run_is_scheduled; [apply compute_init_inv|done|done|].
  apply run_length in Hrun. lia.
Qed.

End Schedules.

Section RunBuild_facts.
Context `{X : Externals}.

Lemma RunBuild_compute_spec env ingestorRepo devices fetchD preD trace :
  let c := compute (sched env) ingestorRepo devices in
  let r := RunBuild_compute env ingestorRepo devices fetchD preD trace in
  rb_error r = cr_error c
  ∧ rb_trace r = trace ++ cr_trace c
  ∧ BuiltDevicesCount (rb_stats r) = cr_built c
  ∧ rb_devices r = match cr_error c with
                   | Some _ => None
                   | None => Some (cr_devices c)
                   end.
Proof.
  intros c r. subst r. unfold RunBuild_compute. fold c.
  by destruct (cr_error c).
Qed.

(** What [RunBuild] does once the assets are fetched and the strict policy
    has not stopped it. *)
Lemma RunBuild_proceeds cfg env ingestorRepo :
  fetch_result env = inl ingestorRepo →
  (pre_errors (precompute ingestorRepo) = None ∨ AllDevicesMustBuild cfg = false) →
  let pre := precompute ingestorRepo in
  let c := compute (sched env) ingestorRepo (pre_devices pre) in
  let r := RunBuild cfg env in
  rb_error r = cr_error c
  ∧ rb_trace r
    = map Send (fetch_sent env ++ ReportStats ingestorRepo) ++ pre_trace pre
      ++ match pre_errors pre with
         | Some _ => [Send some_devices_failed_message]
         | None => []
         end
      ++ cr_trace c
  ∧ BuiltDevicesCount (rb_stats r) = cr_built c
  ∧ rb_devices r = match cr_error c with
                   | Some _ => None
                   | None => Some (cr_devices c)
                   end.
Proof.
  intros Hfetch Hpolicy pre c r. subst r c pre. unfold RunBuild. rewrite Hfetch.
  destruct (pre_errors (precompute ingestorRepo)) as [e|] eqn:Hpre.
  - destruct Hpolicy as [Hnone| ->]; [done|].
    destruct (RunBuild_compute_spec env ingestorRepo
                (pre_devices (precompute ingestorRepo))
                (Time_Sub (now env 1) (now env 0)) (Time_Sub (now env 2) (now env 1))
                ((map Send (fetch_sent env ++ ReportStats ingestorRepo)
                    ++ pre_trace (precompute ingestorRepo))
                   ++ [Send some_devices_failed_message]))
      as (-> & -> & -> & ->).
    by rewrite <- !app_assoc.
  - destruct (RunBuild_compute_spec env ingestorRepo
                (pre_devices (precompute ingestorRepo))
                (Time_Sub (now env 1) (now env 0)) (Time_Sub (now env 2) (now env 1))
                (map Send (fetch_sent env ++ ReportStats ingestorRepo)
                   ++ pre_trace (precompute ingestorRepo)))
      as (-> & -> & -> & ->).
    by rewrite <- !app_assoc.
Qed.

(** With distinct hostnames, the devices [precompute] marks are those
    [NewDevice] failed on. *)
Lemma precompute_is_nil ingestorRepo dev :
  NoDup (map Hostname (DeviceInventory ingestorRepo)) →
  dev ∈ DeviceInventory ingestorRepo →
  is_nil (pre_devices (precompute ingestorRepo)) (Hostname dev)
  = match NewDevice dev (Precompute ingestorRepo) with
    | inl _ => false
    | inr _ => true
    end.
Proof.
  intros Hnd Hin. unfold is_nil, precompute.
  rewrite precompute_loop_lookup by done. unfold precompute_entry.
  by destruct (NewDevice _ _).
Qed.

Lemma precompute_marked ingestorRepo :
  NoDup (map Hostname (DeviceInventory ingestorRepo)) →
  length (marked_devices (pre_devices (precompute ingestorRepo))
            (DeviceInventory ingestorRepo))
  = length (failures (Precompute ingestorRepo) (DeviceInventory ingestorRepo)).
Proof.
  intros Hnd. unfold marked_devices, failures.
  assert (Hall : ∀ dev, dev ∈ DeviceInventory ingestorRepo →
            is_nil (pre_devices (precompute ingestorRepo)) (Hostname dev)
            = match NewDevice dev (Precompute ingestorRepo) with
              | inl _ => false
              | inr _ => true
              end)
    by (intros; by apply precompute_is_nil).
  revert Hall. generalize (pre_devices (precompute ingestorRepo)).
  generalize (Precompute ingestorRepo). clear Hnd.
  induction (DeviceInventory ingestorRepo) as [|dev l IH]; intros dd m Hall; [done|].
  rewrite filter_cons. simpl. unfold NewDevice_error at 1.
  rewrite (Hall dev) by apply list_elem_of_here.
  assert (IH' := IH dd m (λ d Hd, Hall d (list_elem_of_further _ _ _ Hd))).
  destruct (NewDevice dev dd); case_decide; simpl; try done; by rewrite IH'.
Qed.

Lemma precompute_dom ingestorRepo h :
  is_Some (pre_devices (precompute ingestorRepo) !! h) →
  h ∈ map Hostname (DeviceInventory ingestorRepo).
Proof.
  unfold precompute. rewrite precompute_loop_dom. simpl.
  rewrite lookup_empty. intros [?|[? [=]]]. done.
Qed.

(** With distinct hostnames, what [compute] returns on the devices of
    [precompute] is told by [NewDevice] and [Generateconfigs] alone. *)
Lemma compute_after_precompute sched ingestorRepo :
  NoDup (map Hostname (DeviceInventory ingestorRepo)) →
  let devices := pre_devices (precompute ingestorRepo) in
  let c := compute sched ingestorRepo devices in
  length (succeeded (cr_final c))
  = length (built_devices devices (DeviceInventory ingestorRepo))
  ∧ cr_devices c = (generated <$> devices)
  ∧ (length (c_tasks (cr_final c))
     + length (failures (Precompute ingestorRepo) (DeviceInventory ingestorRepo))
     = length (DeviceInventory ingestorRepo))%nat.
Proof.
  intros Hnd devices c.
  destruct (compute_returns sched ingestorRepo devices) as (Hret & Hdev & _ & ths & Hrun).
  pose proof (compute_final_inv sched ingestorRepo devices) as Hinv.
  pose proof (run_outcome _ _ _ _ _ Hnd (compute_init_inv _ _)
                (compute_init_outcome _ _) Hrun) as Hout.
  fold c in Hret, Hdev, Hinv, Hout. clearbody c.
  assert (is_Some (c_ret (cr_final c))) as Hs by (rewrite Hret; eauto).
  split; [by apply returned_succeeded|]. split.
  - rewrite Hdev. apply (returned_devices (DeviceInventory ingestorRepo)); try done.
    apply precompute_dom.
  - destruct (returned_values _ _ _ _ _ Hinv Hret) as (_ & _ & _ & Hlen & _).
    unfold devices in Hlen. by rewrite precompute_marked in Hlen.
Qed.

(** With distinct hostnames, when every model built generates its
    configuration, [compute] returns no error and counts the devices that
    have a model. *)
Lemma compute_all_generate sched ingestorRepo :
  NoDup (map Hostname (DeviceInventory ingestorRepo)) →
  (∀ dev newDevice, dev ∈ DeviceInventory ingestorRepo →
     NewDevice dev (Precompute ingestorRepo) = inl newDevice →
     (Generateconfigs newDevice).2 = None) →
  let c := compute sched ingestorRepo (pre_devices (precompute ingestorRepo)) in
  cr_error c = None
  ∧ cr_built c
    = Z.of_nat (length (DeviceInventory ingestorRepo)
                - length (failures (Precompute ingestorRepo)
                            (DeviceInventory ingestorRepo))) mod 2 ^ 32.
Proof.
  intros Hnd Hgen c.
  destruct (compute_after_precompute sched ingestorRepo Hnd) as (Hok & _ & Hlen).
  destruct (compute_returns sched ingestorRepo
              (pre_devices (precompute ingestorRepo))) as (Hret & _).
  pose proof (compute_final_inv sched ingestorRepo
                (pre_devices (precompute ingestorRepo))) as Hinv.
  fold c in Hok, Hlen, Hret, Hinv. clearbody c.
  destruct (returned_values _ _ _ _ _ Hinv Hret) as (Hn & He & _ & _ & Hhosts & _).
  assert (built_devices (pre_devices (precompute ingestorRepo))
            (DeviceInventory ingestorRepo)
          = valid_devices (pre_devices (precompute ingestorRepo))
              (DeviceInventory ingestorRepo)) as Hall.
  { unfold built_devices, valid_devices. apply filter_iff_in. intros dev Hin.
    rewrite precompute_is_nil by done.
    unfold generates, precompute. rewrite precompute_loop_lookup by done.
    unfold precompute_entry.
    destruct (NewDevice dev (Precompute ingestorRepo)) as [d|err] eqn:Hnew; [|done].
    by rewrite (Hgen dev d Hin Hnew). }
  rewrite Hall in Hok. apply (f_equal length) in Hhosts.
  rewrite !length_map in Hhosts.
  pose proof (tasks_split (cr_final c)) as Hsplit.
  split.
  - apply He. destruct (failed_tasks (cr_final c)); [done|]. simpl in Hsplit. lia.
  - rewrite Hn. do 2 f_equal. lia.
Qed.

Lemma RunBuild_success_devices cfg env :
  rb_error (RunBuild cfg env) = None → is_Some (rb_devices (RunBuild cfg env)).
Proof.
  intros Hok. unfold RunBuild in *.
  destruct (fetch_result env) as [ingestorRepo|err]; [|done].
  assert (∀ d f p t,
            rb_error (RunBuild_compute env ingestorRepo d f p t) = None →
            is_Some (rb_devices (RunBuild_compute env ingestorRepo d f p t))) as Hc.
  { intros d f p t. unfold RunBuild_compute.
    destruct (cr_error _); [done|eauto]. }
  destruct (pre_errors (precompute ingestorRepo)); [|by apply Hc].
  destruct (AllDevicesMustBuild cfg); [done|by apply Hc].
Qed.

End RunBuild_facts.

Section StartBuildLoop_facts.
Context `{X : Externals}.

Lemma cycle_calls_Set r :
  filter (λ c, is_Set c = true) (cycle_calls r)
  = match rb_error r with
    | Some _ => []
    | None => [DevicesRepository_Set (rb_devices r)]
    end.
Proof.
  unfold cycle_calls, after_build. rewrite !filter_app.
  assert (filter (λ c, is_Set c = true) (map Pipeline (rb_trace r)) = []) as ->.
  { apply filter_none. intros c Hin.
    change (c ∈ Pipeline <$> rb_trace r) in Hin.
    apply list_elem_of_fmap in Hin as (e & -> & _). done. }
  by destruct (rb_error r).
Qed.

Lemma build_loop_spec cfg envs waits fuel n s :
  let res := build_loop fuel cfg envs waits n s in
  match first_closed waits n fuel with
  | Some j =>
      res.2 = true
      ∧ calls res.1 = calls s ++ turns cfg envs waits n (S j) ++ [stopping]
  | None =>
      res.2 = false ∧ calls res.1 = calls s ++ turns cfg envs waits n fuel
  end.
Proof.
  revert n s. induction fuel as [|fuel IH]; intros n s.
  - simpl. by rewrite app_nil_r.
  - cbn [build_loop first_closed].
    specialize (IH (S n) (log_call [Select (waits n)]
                            (build_cycle cfg (envs n) s))).
    cbv zeta in IH.
    assert (calls (log_call [Select (waits n)] (build_cycle cfg (envs n) s))
            = calls s ++ cycle_calls (RunBuild cfg (envs n)) ++ [Select (waits n)])
      as Hcalls by (simpl; by rewrite <- app_assoc).
    rewrite Hcalls in IH. clear Hcalls.
    assert (∀ k, turns cfg envs waits n (S k)
                 = cycle_calls (RunBuild cfg (envs n)) ++ [Select (waits n)]
                   ++ turns cfg envs waits (S n) k) as Hturns by done.
    destruct (waits n) eqn:Hw.
    + destruct (first_closed waits (S n) fuel) as [j|];
        cbn [fmap option_fmap option_map]; destruct IH as [H1 H2];
        rewrite H1, H2, Hturns, <- !app_assoc; done.
    + destruct (first_closed waits (S n) fuel) as [j|];
        cbn [fmap option_fmap option_map]; destruct IH as [H1 H2];
        rewrite H1, H2, Hturns, <- !app_assoc; done.
    + cbn [fst snd]. split; [done|]. rewrite Hturns.
      cbn [turns log_call build_cycle calls]. rewrite <- !app_assoc. done.
Qed.

Lemma first_closed_Some waits n k j :
  first_closed waits n k = Some j
  ↔ (j < k)%nat ∧ waits (n + j)%nat = TriggerClosed
    ∧ ∀ i, (i < j)%nat → waits (n + i)%nat ≠ TriggerClosed.
Proof.
  revert n j. induction k as [|k IH]; intros n j; simpl.
  - split; [done|]. intros [? _]. lia.
  - destruct (decide (waits n = TriggerClosed)) as [Hw|Hw].
    + rewrite Hw. split.
      * intros [= <-]. rewrite Nat.add_0_r. split; [lia|]. split; [done|]. intros; lia.
      * intros (_ & _ & Hfirst). destruct j as [|j]; [done|].
        exfalso. apply (Hfirst 0%nat); [lia|]. by rewrite Nat.add_0_r.
    + assert (match waits n with
              | TriggerClosed => Some 0%nat
              | _ => S <$> first_closed waits (S n) k
              end = S <$> first_closed waits (S n) k) as ->
        by by destruct (waits n).
      destruct j as [|j].
      * split; [by destruct (first_closed waits (S n) k)|].
        intros (_ & Hc & _). by rewrite Nat.add_0_r in Hc.
      * transitivity (first_closed waits (S n) k = Some j).
        { destruct (first_closed waits (S n) k); simpl; split; congruence. }
        rewrite IH. replace (S n + j)%nat with (n + S j)%nat by lia.
        split; intros (Hlt & Hc & Hfirst); (split; [lia|]); (split; [done|]).
        -- intros [|i] Hi; [by rewrite Nat.add_0_r|].
           replace (n + S i)%nat with (S n + i)%nat by lia. apply Hfirst. lia.
        -- intros i Hi. replace (S n + i)%nat with (n + S i)%nat by lia.
           apply Hfirst. lia.
Qed.

Lemma first_closed_None waits n k :
  first_closed waits n k = None
  ↔ ∀ i, (i < k)%nat → waits (n + i)%nat ≠ TriggerClosed.
Proof.
  revert n. induction k as [|k IH]; intros n; simpl.
  - split; [intros; lia|done].
  - destruct (decide (waits n = TriggerClosed)) as [Hw|Hw].
    + rewrite Hw. split; [done|]. intros Hall. exfalso.
      apply (Hall 0%nat); [lia|]. by rewrite Nat.add_0_r.
    + assert (match waits n with
              | TriggerClosed => Some 0%nat
              | _ => S <$> first_closed waits (S n) k
              end = S <$> first_closed waits (S n) k) as ->
        by by destruct (waits n).
      transitivity (first_closed waits (S n) k = None).
      { by destruct (first_closed waits (S n) k). }
      rewrite IH. split; intros Hall i Hi.
      * destruct i as [|i]; [by rewrite Nat.add_0_r|].
        replace (n + S i)%nat with (S n + i)%nat by lia. apply Hall. lia.
      * replace (S n + i)%nat with (n + S i)%nat by lia. apply Hall. lia.
Qed.

(** A closed trigger among the first [k] selects has a first one. *)
Lemma first_closed_exists waits k n :
  (n < k)%nat → waits n = TriggerClosed →
  ∃ j, first_closed waits 0 k = Some j.
Proof.
  intros Hn Hw. destruct (first_closed waits 0 k) eqn:Hfc; [eauto|].
  rewrite first_closed_None in Hfc. by destruct (Hfc n Hn).
Qed.

End StartBuildLoop_facts.

(** * The claims *)

Section Precompute_claims.
Context `{X : Externals}.

(** C5. [precompute] always returns. On an inventory of N devices with
    pairwise distinct hostnames, the map it returns has exactly N entries,
    the entry of each device being the model [NewDevice] built for it or the
    nil failure marker, and the combined error is non-nil if and only if
    [NewDevice] failed for at least one device. *)
Theorem C5_precompute_one_entry_per_device (ingestorRepo : Assets) :
  NoDup (map Hostname (DeviceInventory ingestorRepo)) →
  let r := precompute ingestorRepo in
  size (pre_devices r) = length (DeviceInventory ingestorRepo)
  ∧ (∀ dev, dev ∈ DeviceInventory ingestorRepo →
       pre_devices r !! Hostname dev
       = Some match NewDevice dev (Precompute ingestorRepo) with
              | inl newDevice => Some newDevice
              | inr _ => None
              end)
  ∧ (pre_errors r ≠ None
     ↔ ∃ dev err, dev ∈ DeviceInventory ingestorRepo
                  ∧ NewDevice dev (Precompute ingestorRepo) = inr err).
Proof.
  intros Hnd r. subst r. unfold precompute. split; [|split].
  - by apply precompute_loop_size.
  - intros dev Hin. rewrite precompute_loop_lookup by done.
    unfold precompute_entry. by destruct (NewDevice _ _).
  - rewrite precompute_loop_errors. simpl. rewrite join_all_None, failures_nil.
    split.
    + intros Hsome.
      destruct (decide (Exists (λ dev, NewDevice_error (Precompute ingestorRepo) dev ≠ None)
                          (DeviceInventory ingestorRepo))) as [Hex|Hex].
      * apply Exists_exists in Hex as (dev & Hin & Hdev).
        unfold NewDevice_error in Hdev.
        destruct (NewDevice dev _) as [d|err] eqn:Hnew; [done|]. eauto.
      * exfalso. apply Hsome. intros dev Hin.
        destruct (NewDevice_error _ dev) eqn:Hdev; [|done].
        exfalso. apply Hex, Exists_exists. exists dev. split; [done|]. by rewrite Hdev.
    + intros (dev & err & Hin & Hnew) Hnone. specialize (Hnone dev Hin).
      unfold NewDevice_error in Hnone. by rewrite Hnew in Hnone.
Qed.

(** C6. In [precompute], every failure of [NewDevice] is reported by a
    message of severity Error whose text is that of the failure, in the order
    of the inventory, and is merged into the error returned: the combined
    error is the join of all the failures, each of them is found under it by
    unwrapping, and its text is their texts, one per line. *)
Theorem C6_precompute_failures_reported_and_merged (ingestorRepo : Assets) :
  let devicesData := Precompute ingestorRepo in
  let inventory := DeviceInventory ingestorRepo in
  let r := precompute ingestorRepo in
  pre_trace r
  = map (λ err, Send (mkMessage PrecomputeMessage SeverityError (Error err)))
      (failures devicesData inventory)
  ∧ pre_errors r = join_all None (failures devicesData inventory)
  ∧ (∀ dev err, dev ∈ inventory → NewDevice dev devicesData = inr err →
       Send (mkMessage PrecomputeMessage SeverityError (Error err)) ∈ pre_trace r
       ∧ ∃ agg, pre_errors r = Some agg ∧ err ∈ unwrap_all agg)
  ∧ (failures devicesData inventory ≠ [] →
       ∃ agg, pre_errors r = Some agg
              ∧ Error agg = error_lines (failures devicesData inventory)).
Proof.
  intros dd inventory r. subst r. unfold precompute.
  rewrite precompute_loop_trace, precompute_loop_errors. simpl.
  split; [done|]. split; [done|]. split; [|apply join_all_text].
  intros dev err Hin Hnew.
  assert (err ∈ failures dd inventory) as Herr.
  { eapply failures_elem; [done|]. unfold NewDevice_error. by rewrite Hnew. }
  split.
  - by apply (list_elem_of_fmap_2
                (λ err, Send (mkMessage PrecomputeMessage SeverityError (Error err)))).
  - destruct (join_all_keeps (failures dd inventory) None) as (_ & Hkeep & _).
    by apply Hkeep.
Qed.

End Precompute_claims.

Section Compute_claims.
Context `{X : Externals}.

(** C4, as the code has it. Under every schedule of its goroutines,
    [compute] returns; it has started a goroutine for each of the N−M devices
    without a failure marker; the count it returns is the number of
    goroutines whose [Generateconfigs] returned no error, as a [uint32]
    counts it, that is modulo 2^32, and so that very number when it is below
    2^32; the count lies between 0 and N−M; and the error returned is non-nil
    if and only if the [Generateconfigs] of at least one goroutine returned
    an error. With distinct hostnames, the goroutines that return no error
    are as many as the devices whose model generates its configuration. *)
Theorem C4_compute_count_and_error (sched : nat → nat) (ingestorRepo : Assets)
    (devices : gmap string (option Device)) :
  let inventory := DeviceInventory ingestorRepo in
  let r := compute sched ingestorRepo devices in
  let dispatched := c_tasks (cr_final r) in
  let ok := length (succeeded (cr_final r)) in
  let N := length inventory in
  let M := length (marked_devices devices inventory) in
  c_ret (cr_final r) = Some (cr_built r, cr_error r)
  ∧ length dispatched = (N - M)%nat
  ∧ cr_built r = Z.of_nat ok mod 2 ^ 32
  ∧ (Z.of_nat ok < 2 ^ 32 → cr_built r = Z.of_nat ok)
  ∧ 0 ≤ cr_built r ≤ Z.of_nat (N - M)
  ∧ (cr_error r ≠ None ↔ ∃ t, t ∈ dispatched ∧ t_err t ≠ None)
  ∧ (NoDup (map Hostname inventory) →
       ok = length (built_devices devices inventory)).
Proof.
  intros inventory r dispatched ok N M.
  destruct (compute_returns sched ingestorRepo devices)
    as (Hret & _ & _ & ths & Hrun).
  pose proof (compute_final_inv sched ingestorRepo devices) as Hinv.
  fold r in Hret, Hinv, Hrun.
  destruct (returned_values _ _ _ _ _ Hinv Hret) as (Hn & He & _ & _ & _ & _).
  assert (length dispatched = (N - M)%nat) as Hlen
    by (apply task_count_minus; [done|by rewrite Hret]).
  pose proof (tasks_split (cr_final r)) as Hsplit.
  fold ok in Hn, Hsplit. fold dispatched in Hsplit.
  split; [done|]. split; [done|]. split; [done|]. split; [|split; [|split]].
  - intros Hlt. rewrite Hn. apply Z.mod_small. lia.
  - rewrite Hn. pose proof (Z.mod_pos_bound (Z.of_nat ok) (2 ^ 32) ltac:(lia)).
    pose proof (Z.mod_le (Z.of_nat ok) (2 ^ 32) ltac:(lia) ltac:(lia)). lia.
  - rewrite He. unfold failed_tasks. fold dispatched. split.
    + intros Hne. destruct (filter _ dispatched) as [|t l] eqn:Hf; [done|].
      assert (t ∈ filter (λ t, t_err t ≠ None) dispatched) as Hin
        by (rewrite Hf; apply list_elem_of_here).
      apply list_elem_of_filter in Hin as [? ?]. eauto.
    + intros (t & Hin & Ht) Hnil.
      assert (t ∈ filter (λ t, t_err t ≠ None) dispatched) as Hin'
        by by apply list_elem_of_filter.
      rewrite Hnil in Hin'. by apply elem_of_nil in Hin'.
  - intros Hnd. apply (returned_succeeded inventory); [done| |by rewrite Hret].
    eapply run_outcome;
      [exact Hnd|apply compute_init_inv|apply compute_init_outcome|exact Hrun].
Qed.

(** C7. Under every schedule, what the loop of [compute] does is, device
    by device in the order of the inventory, a warning "device <hostname> has
    no configuration" for a device whose entry is the failure marker and the
    start of a goroutine for any other. So a marked device gets its warning
    and no goroutine; with M marked devices out of N exactly N−M goroutines
    are started; an error returned comes from a goroutine started for an
    unmarked device, never from a skip, and there is none when every device
    is marked. *)
Theorem C7_compute_skips_marked_devices (sched : nat → nat)
    (ingestorRepo : Assets) (devices : gmap string (option Device)) :
  let inventory := DeviceInventory ingestorRepo in
  let r := compute sched ingestorRepo devices in
  let N := length inventory in
  let M := length (marked_devices devices inventory) in
  filter (λ e, is_main_event e = true) (cr_trace r)
  = map (λ dev,
           if is_nil devices (Hostname dev) then
             Send (mkMessage ComputeMessage Warning
                     ("device " +:+ Hostname dev +:+ " has no configuration"))
           else Go (Hostname dev)) inventory
  ∧ (∀ dev, dev ∈ inventory → is_nil devices (Hostname dev) = true →
       Send (mkMessage ComputeMessage Warning
               ("device " +:+ Hostname dev +:+ " has no configuration"))
         ∈ cr_trace r
       ∧ (Go (Hostname dev) ∉ cr_trace r)
       ∧ (Hostname dev ∉ map t_host (c_tasks (cr_final r))))
  ∧ length (c_tasks (cr_final r)) = (N - M)%nat
  ∧ length (filter (λ e, is_go e = true) (cr_trace r)) = (N - M)%nat
  ∧ (cr_error r ≠ None →
       ∃ t, t ∈ c_tasks (cr_final r) ∧ t_err t ≠ None
            ∧ is_nil devices (t_host t) = false)
  ∧ (M = N → cr_error r = None).
Proof.
  intros inventory r N M.
  destruct (compute_returns sched ingestorRepo devices) as (Hret & _ & Htr & _).
  pose proof (compute_final_inv sched ingestorRepo devices) as Hinv.
  fold r in Hret, Hinv, Htr.
  destruct (returned_values _ _ _ _ _ Hinv Hret)
    as (_ & He & _ & _ & Hhosts & Hmain).
  rewrite <- Htr in Hmain. fold inventory in Hmain, Hhosts.
  assert (length (c_tasks (cr_final r)) = (N - M)%nat) as Hlen
    by (apply task_count_minus; [done|by rewrite Hret]).
  split; [exact Hmain|]. split; [|split; [done|split; [|split]]].
  - intros dev Hin Hnil. split; [|split].
    + assert (main_event devices dev ∈ filter (λ e, is_main_event e = true) (cr_trace r))
        as Hev by (rewrite Hmain; by apply (list_elem_of_fmap_2 (main_event devices))).
      unfold main_event in Hev. rewrite Hnil in Hev.
      by apply list_elem_of_filter in Hev as [_ ?].
    + intros Hgo.
      assert (Go (Hostname dev) ∈ filter (λ e, is_main_event e = true) (cr_trace r))
        as Hev by by apply list_elem_of_filter.
      rewrite Hmain in Hev.
      change (Go (Hostname dev) ∈ main_event devices <$> inventory) in Hev.
      apply list_elem_of_fmap in Hev as (dev' & Hev & _).
      unfold main_event in Hev.
      destruct (is_nil devices (Hostname dev')) eqn:Hnil'; [done|].
      injection Hev as Hh. congruence.
    + rewrite Hhosts. intros Hh.
      change (Hostname dev ∈ Hostname <$> valid_devices devices inventory) in Hh.
      apply list_elem_of_fmap in Hh as (dev' & Hh & Hv).
      apply list_elem_of_filter in Hv as [Hv _]. congruence.
  - rewrite <- (list_filter_filter_l _ (λ e, is_main_event e = true))
      by (by intros []).
    rewrite Hmain, go_events.
    pose proof (devices_split devices inventory). fold N M in H. lia.
  - intros Herr.
    destruct (failed_tasks (cr_final r)) as [|t l] eqn:Hf.
    { exfalso. by apply Herr, He. }
    assert (t ∈ failed_tasks (cr_final r)) as Hin
      by (rewrite Hf; apply list_elem_of_here).
    apply list_elem_of_filter in Hin as [Ht Hin].
    exists t. split; [done|]. split; [done|].
    pose proof (inv_tasks _ _ _ Hinv) as Hok.
    rewrite Forall_forall in Hok. by destruct (Hok _ Hin).
  - intros HMN. apply He. unfold failed_tasks.
    destruct (c_tasks (cr_final r)); [done|]. simpl in Hlen. lia.
Qed.

End Compute_claims.

Section RunBuild_claims.
Context `{X : Externals}.

(** C2. Whenever [RunBuild] returns a non-nil error, the device mapping it
    returns is nil; and the error is that of the fetch, that of the strict
    policy after a precompute failure, or that of [compute]. *)
Theorem C2_RunBuild_error_returns_nil_devices (cfg : Config) (env : BuildEnv) :
  rb_error (RunBuild cfg env) ≠ None →
  rb_devices (RunBuild cfg env) = None
  ∧ ((∃ err, fetch_result env = inr err ∧ rb_error (RunBuild cfg env) = Some err)
     ∨ (∃ ingestorRepo,
          fetch_result env = inl ingestorRepo
          ∧ AllDevicesMustBuild cfg = true
          ∧ pre_errors (precompute ingestorRepo) ≠ None
          ∧ rb_error (RunBuild cfg env) = Some all_devices_must_build)
     ∨ (∃ ingestorRepo,
          fetch_result env = inl ingestorRepo
          ∧ rb_error (RunBuild cfg env)
            = cr_error (compute (sched env) ingestorRepo
                          (pre_devices (precompute ingestorRepo)))
          ∧ rb_error (RunBuild cfg env) = Some conversion_failed)).
Proof.
  intros Herr.
  destruct (fetch_result env) as [ingestorRepo|err] eqn:Hfetch.
  - destruct (decide (pre_errors (precompute ingestorRepo) = None
                      ∨ AllDevicesMustBuild cfg = false)) as [Hgo|Hstop].
    + destruct (RunBuild_proceeds cfg env ingestorRepo Hfetch Hgo)
        as (He & _ & _ & Hd).
      rewrite Hd. rewrite He in Herr.
      destruct (compute_returns (sched env) ingestorRepo
                  (pre_devices (precompute ingestorRepo))) as (Hret & _).
      destruct (returned_values _ _ _ _ _ (compute_final_inv _ _ _) Hret)
        as (_ & _ & [Hnone|Hsome] & _); [done|].
      rewrite Hsome. split; [done|]. right. right. exists ingestorRepo.
      by rewrite He, Hsome.
    + assert (pre_errors (precompute ingestorRepo) ≠ None
              ∧ AllDevicesMustBuild cfg = true) as [Hpre Hstrict].
      { destruct (pre_errors (precompute ingestorRepo)), (AllDevicesMustBuild cfg);
          try done; exfalso; apply Hstop; auto. }
      unfold RunBuild in *. rewrite Hfetch in *. rewrite Hstrict in *.
      destruct (pre_errors (precompute ingestorRepo)) eqn:Hp; [|done].
      split; [done|]. right. left. exists ingestorRepo. by rewrite Hp.
  - unfold RunBuild in *. rewrite Hfetch in *. split; [done|]. left. eauto.
Qed.

(** C3. If the policy "all devices must build" is enabled and [precompute]
    returns an error, [RunBuild] returns an error and a nil device mapping,
    and [compute] has not run: all [RunBuild] has done is what the fetch sent
    and the error messages of [precompute]; no goroutine was started and the
    built-devices count and the compute duration are as [RunBuild] found
    them, zero. *)
Theorem C3_RunBuild_strict_policy_stops_before_compute (cfg : Config)
    (env : BuildEnv) (ingestorRepo : Assets) :
  AllDevicesMustBuild cfg = true →
  fetch_result env = inl ingestorRepo →
  pre_errors (precompute ingestorRepo) ≠ None →
  let r := RunBuild cfg env in
  rb_error r = Some (errors_New "failed: all devices must build")
  ∧ rb_devices r = None
  ∧ rb_trace r
    = map Send (fetch_sent env ++ ReportStats ingestorRepo)
      ++ map (λ err, Send (mkMessage PrecomputeMessage SeverityError (Error err)))
           (failures (Precompute ingestorRepo) (DeviceInventory ingestorRepo))
  ∧ (∀ h, Go h ∉ rb_trace r)
  ∧ BuiltDevicesCount (rb_stats r) = 0
  ∧ ComputeDuration (Performance_ (rb_stats r)) = 0.
Proof.
  intros Hstrict Hfetch Hpre r. subst r. unfold RunBuild.
  rewrite Hfetch, Hstrict.
  destruct (pre_errors (precompute ingestorRepo)); [|done]. simpl.
  unfold precompute. rewrite precompute_loop_trace. simpl.
  repeat split; try done.
  intros h [Hin|Hin]%elem_of_app.
  - change (Go h ∈ Send <$> (fetch_sent env ++ ReportStats ingestorRepo)) in Hin.
    by apply list_elem_of_fmap in Hin as (? & ? & _).
  - apply (list_elem_of_fmap
             (λ err, Send (mkMessage PrecomputeMessage SeverityError (Error err))))
      in Hin as (? & ? & _). done.
Qed.

(** C8. If the strict policy is disabled and [precompute] fails for some
    devices, [RunBuild] sends the warning "build failed for some devices" and
    goes on to [compute], which starts a goroutine for each device that has a
    model; the error and the count of [RunBuild] are those of [compute]. In
    particular, with 10 devices, one of which [precompute] has marked, and the
    goroutines of the 9 others all succeeding, [RunBuild] returns a nil
    error, a device mapping and a built-devices count of 9. Told from the
    devices alone: so it is with 10 devices of distinct hostnames, one
    failure of [NewDevice], and models that all generate their
    configuration. *)
Theorem C8_RunBuild_lenient_policy_proceeds (cfg : Config) (env : BuildEnv)
    (ingestorRepo : Assets) :
  AllDevicesMustBuild cfg = false →
  fetch_result env = inl ingestorRepo →
  pre_errors (precompute ingestorRepo) ≠ None →
  let inventory := DeviceInventory ingestorRepo in
  let devicesData := Precompute ingestorRepo in
  let pre := precompute ingestorRepo in
  let c := compute (sched env) ingestorRepo (pre_devices pre) in
  let r := RunBuild cfg env in
  rb_trace r
  = map Send (fetch_sent env ++ ReportStats ingestorRepo) ++ pre_trace pre
    ++ [Send (mkMessage ComputeMessage Warning "build failed for some devices")]
    ++ cr_trace c
  ∧ rb_error r = cr_error c
  ∧ BuiltDevicesCount (rb_stats r) = cr_built c
  ∧ map t_host (c_tasks (cr_final c))
    = map Hostname (valid_devices (pre_devices pre) inventory)
  ∧ (length inventory = 10%nat →
     length (marked_devices (pre_devices pre) inventory) = 1%nat →
     failed_tasks (cr_final c) = [] →
     length (c_tasks (cr_final c)) = 9%nat
     ∧ rb_error r = None
     ∧ BuiltDevicesCount (rb_stats r) = 9
     ∧ is_Some (rb_devices r))
  ∧ (NoDup (map Hostname inventory) →
     length inventory = 10%nat →
     length (failures devicesData inventory) = 1%nat →
     (∀ dev newDevice, dev ∈ inventory →
        NewDevice dev devicesData = inl newDevice →
        (Generateconfigs newDevice).2 = None) →
     rb_error r = None
     ∧ BuiltDevicesCount (rb_stats r) = 9
     ∧ is_Some (rb_devices r)).
Proof.
  intros Hlenient Hfetch Hpre inventory devicesData pre c r.
  destruct (RunBuild_proceeds cfg env ingestorRepo Hfetch (or_intror Hlenient))
    as (He & Htr & Hn & Hd).
  fold pre c r in He, Htr, Hn, Hd.
  destruct (pre_errors pre) eqn:Hp; [|done].
  destruct (compute_returns (sched env) ingestorRepo (pre_devices pre))
    as (Hret & _).
  destruct (returned_values _ _ _ _ _ (compute_final_inv _ _ _) Hret)
    as (Hcount & Herr & _ & Hlen & Hhosts & _).
  fold c inventory in Hcount, Herr, Hlen, Hhosts.
  split; [exact Htr|]. split; [exact He|]. split; [exact Hn|].
  split; [exact Hhosts|]. split.
  - intros Hten Hone Hnofail.
    pose proof (tasks_split (cr_final c)) as Hsplit.
    rewrite Hnofail in Hsplit. cbn [length] in Hsplit.
    assert (length (c_tasks (cr_final c)) = 9%nat) as Hnine by lia.
    split; [exact Hnine|].
    apply Herr in Hnofail.
    rewrite He, Hn, Hd, Hnofail, Hcount.
    replace (length (succeeded (cr_final c))) with 9%nat by lia. done.
  - intros Hnd Hten Hone Hgen.
    destruct (compute_all_generate (sched env) ingestorRepo Hnd Hgen) as (Hce & Hcb).
    fold pre c inventory devicesData in Hce, Hcb.
    rewrite He, Hn, Hd, Hce, Hcb, Hten, Hone. done.
Qed.

(** C10. When [RunBuild] succeeds, the mapping it returns is the one the
    supervisor publishes; it has an entry for each device of the inventory,
    and its nil entries are those of the map of [precompute], which [compute]
    leaves in. With distinct hostnames that is one entry per device: the
    generated model of a device that has one, and nil for each device
    [NewDevice] failed on. With the strict policy disabled the published set
    can so contain devices with no artifact. *)
Theorem C10_published_set_keeps_nil_entries (cfg : Config) (env : BuildEnv)
    (ingestorRepo : Assets) (s : supervisor) :
  fetch_result env = inl ingestorRepo →
  rb_error (RunBuild cfg env) = None →
  ∃ devs,
    rb_devices (RunBuild cfg env) = Some devs
    ∧ published (build_cycle cfg env s) = Some devs
    ∧ DevicesRepository_Set (Some devs) ∈ calls (build_cycle cfg env s)
    ∧ (∀ dev, dev ∈ DeviceInventory ingestorRepo →
         is_Some (devs !! Hostname dev))
    ∧ (∀ h, devs !! h = Some None
            ↔ pre_devices (precompute ingestorRepo) !! h = Some None)
    ∧ (NoDup (map Hostname (DeviceInventory ingestorRepo)) →
       size devs = length (DeviceInventory ingestorRepo)
       ∧ (∀ dev, dev ∈ DeviceInventory ingestorRepo →
            devs !! Hostname dev
            = Some match NewDevice dev (Precompute ingestorRepo) with
                   | inl newDevice => Some (Generateconfigs newDevice).1
                   | inr _ => None
                   end)
       ∧ (∀ dev err, dev ∈ DeviceInventory ingestorRepo →
            NewDevice dev (Precompute ingestorRepo) = inr err →
            devs !! Hostname dev = Some None)).
Proof.
  intros Hfetch Hok.
  assert (pre_errors (precompute ingestorRepo) = None
          ∨ AllDevicesMustBuild cfg = false) as Hgo.
  { destruct (pre_errors (precompute ingestorRepo)) eqn:Hp; [|by left].
    destruct (AllDevicesMustBuild cfg) eqn:Hs; [|by right].
    unfold RunBuild in Hok. by rewrite Hfetch, Hp, Hs in Hok. }
  destruct (RunBuild_proceeds cfg env ingestorRepo Hfetch Hgo) as (He & _ & _ & Hd).
  rewrite Hok in He. rewrite <- He in Hd.
  destruct (compute_returns (sched env) ingestorRepo
              (pre_devices (precompute ingestorRepo))) as (_ & Hdev & _).
  pose proof (inv_markers _ _ _ (compute_final_inv (sched env) ingestorRepo
                                   (pre_devices (precompute ingestorRepo)))) as Hmk.
  rewrite <- Hdev in Hmk.
  set (devs := cr_devices (compute (sched env) ingestorRepo
                             (pre_devices (precompute ingestorRepo)))) in *.
  assert (Hshape : ∀ h, marker <$> devs !! h
                        = marker <$> pre_devices (precompute ingestorRepo) !! h).
  { intros h. rewrite <- !lookup_fmap. by rewrite Hmk. }
  exists devs. split; [exact Hd|]. split; [|split; [|split; [|split]]].
  - unfold build_cycle. simpl. by rewrite Hok, Hd.
  - unfold build_cycle. simpl. apply elem_of_app. right.
    unfold cycle_calls, after_build. rewrite Hok, Hd.
    do 4 apply list_elem_of_further. apply elem_of_app. right.
    apply list_elem_of_here.
  - intros dev Hin.
    assert (is_Some (pre_devices (precompute ingestorRepo) !! Hostname dev)) as [e He'].
    { unfold precompute. apply precompute_loop_dom. left.
      by apply (list_elem_of_fmap_2 Hostname). }
    specialize (Hshape (Hostname dev)). rewrite He' in Hshape.
    destruct (devs !! Hostname dev); [eauto|done].
  - intros h. specialize (Hshape h).
    destruct (devs !! h) as [[d|]|],
      (pre_devices (precompute ingestorRepo) !! h) as [[d'|]|];
      simpl in Hshape; split; intros; simplify_eq; done.
  - intros Hnd.
    destruct (compute_after_precompute (sched env) ingestorRepo Hnd) as (_ & Hgen & _).
    fold devs in Hgen.
    assert (Hlookup : ∀ dev, dev ∈ DeviceInventory ingestorRepo →
              devs !! Hostname dev
              = Some match NewDevice dev (Precompute ingestorRepo) with
                     | inl newDevice => Some (Generateconfigs newDevice).1
                     | inr _ => None
                     end).
    { intros dev Hin. rewrite Hgen, lookup_fmap. unfold precompute.
      rewrite precompute_loop_lookup by done. unfold precompute_entry.
      by destruct (NewDevice dev _). }
    split; [|split].
    + rewrite Hgen, map_size_fmap. by apply precompute_loop_size.
    + exact Hlookup.
    + intros dev err Hin Hnew. rewrite Hlookup by done. by rewrite Hnew.
Qed.

End RunBuild_claims.

Section StartBuildLoop_claims.
Context `{X : Externals}.

(** C1. In every turn of the loop the downstream set is updated exactly
    when [RunBuild] returns a nil error, by one call of [Set] given the whole
    new mapping, after which the published set is that mapping; when
    [RunBuild] returns an error, the turn calls [Set] not once and the
    published set is as it was before the turn. *)
Theorem C1_Set_called_once_on_success_only (cfg : Config) (env : BuildEnv)
    (s : supervisor) :
  let r := RunBuild cfg env in
  let s' := build_cycle cfg env s in
  calls s' = calls s ++ cycle_calls r
  ∧ (rb_error r = None →
       filter (λ c, is_Set c = true) (cycle_calls r)
       = [DevicesRepository_Set (rb_devices r)]
       ∧ is_Some (rb_devices r)
       ∧ published s' = rb_devices r)
  ∧ (rb_error r ≠ None →
       filter (λ c, is_Set c = true) (cycle_calls r) = []
       ∧ published s' = published s)
  ∧ (length (filter (λ c, is_Set c = true) (cycle_calls r)) = 1%nat
     ↔ rb_error r = None).
Proof.
  intros r s'. subst s'. unfold build_cycle. fold r. simpl.
  rewrite cycle_calls_Set. split; [done|]. split; [|split].
  - intros Hok. rewrite Hok. split; [done|]. split; [|done].
    by apply RunBuild_success_devices.
  - intros Herr. by destruct (rb_error r).
  - by destruct (rb_error r).
Qed.

(** C9. The loop returns if and only if a [select] finds the trigger
    closed. It then returns from that [select], at the end of a turn run to
    its end: what it has done is whole turns, each followed by its [select],
    up to the first one that finds the trigger closed. As long as no [select]
    finds it closed, the loop has not returned. After each [select] that does
    not find the trigger closed, and so after one that receives a value from
    it, what comes next is the start of the next turn. *)
Theorem C9_loop_returns_on_closed_trigger_only (cfg : Config)
    (envs : nat → BuildEnv) (waits : nat → select_outcome)
    (deviceRepo : option (gmap string (option Device))) :
  ((∃ fuel, (StartBuildLoop fuel cfg envs waits deviceRepo).2 = true)
   ↔ ∃ n, waits n = TriggerClosed)
  ∧ (∀ n fuel, (n < fuel)%nat → waits n = TriggerClosed →
       (∀ i, (i < n)%nat → waits i ≠ TriggerClosed) →
       (StartBuildLoop fuel cfg envs waits deviceRepo).2 = true
       ∧ calls (StartBuildLoop fuel cfg envs waits deviceRepo).1
         = [NewRegistry] ++ turns cfg envs waits 0 (S n) ++ [stopping])
  ∧ (∀ fuel, (∀ i, (i < fuel)%nat → waits i ≠ TriggerClosed) →
       (StartBuildLoop fuel cfg envs waits deviceRepo).2 = false
       ∧ calls (StartBuildLoop fuel cfg envs waits deviceRepo).1
         = [NewRegistry] ++ turns cfg envs waits 0 fuel)
  ∧ (∀ n k,
       turns cfg envs waits n (S k)
       = cycle_calls (RunBuild cfg (envs n))
         ++ Select (waits n) :: turns cfg envs waits (S n) k)
  ∧ (∀ n k, waits n = TriggerReceived →
       ∃ rest,
         turns cfg envs waits n (S (S k))
         = cycle_calls (RunBuild cfg (envs n))
           ++ Select TriggerReceived :: StartNewReport :: rest).
Proof.
  assert (Hstop : ∀ n fuel, (n < fuel)%nat → waits n = TriggerClosed →
            (∀ i, (i < n)%nat → waits i ≠ TriggerClosed) →
            (StartBuildLoop fuel cfg envs waits deviceRepo).2 = true
            ∧ calls (StartBuildLoop fuel cfg envs waits deviceRepo).1
              = [NewRegistry] ++ turns cfg envs waits 0 (S n) ++ [stopping]).
  { intros n fuel Hn Hw Hfirst. unfold StartBuildLoop.
    pose proof (build_loop_spec cfg envs waits fuel 0
                  (mkSup deviceRepo [NewRegistry])) as Hspec.
    assert (first_closed waits 0 fuel = Some n) as Hfc
      by (apply first_closed_Some; auto).
    rewrite Hfc in Hspec. exact Hspec. }
  assert (Hrun : ∀ fuel, (∀ i, (i < fuel)%nat → waits i ≠ TriggerClosed) →
            (StartBuildLoop fuel cfg envs waits deviceRepo).2 = false
            ∧ calls (StartBuildLoop fuel cfg envs waits deviceRepo).1
              = [NewRegistry] ++ turns cfg envs waits 0 fuel).
  { intros fuel Hnone. unfold StartBuildLoop.
    pose proof (build_loop_spec cfg envs waits fuel 0
                  (mkSup deviceRepo [NewRegistry])) as Hspec.
    assert (first_closed waits 0 fuel = None) as Hfc
      by (apply first_closed_None; auto).
    rewrite Hfc in Hspec. exact Hspec. }
  split; [|split; [exact Hstop|split; [exact Hrun|split]]].
  - split.
    + intros [fuel Hret].
      destruct (first_closed waits 0 fuel) as [j|] eqn:Hfc.
      * apply first_closed_Some in Hfc as (_ & Hw & _). eauto.
      * pose proof (proj1 (first_closed_None _ _ _) Hfc) as Hnone.
        destruct (Hrun fuel Hnone) as [Hf _]. congruence.
    + intros [n Hw].
      destruct (first_closed_exists waits (S n) n ltac:(lia) Hw) as [j Hfc].
      apply first_closed_Some in Hfc as (Hj & Hwj & Hfirst).
      exists (S n). by apply (Hstop j).
  - intros n k. simpl. done.
  - intros n k Hw. eexists. cbn [turns]. rewrite Hw. f_equal.
Qed.

End StartBuildLoop_claims.

(** * The claims on fleets *)

(** ** A fleet too large for the counter *)

Lemma sound_fleet_all_built (n : nat) :
  let r :=
    @compute sound_fleet (λ k, k) (seq 0 n)
      (pre_devices (@precompute sound_fleet (seq 0 n))) in
  length (succeeded (cr_final r)) = n
  ∧ cr_error r = None
  ∧ cr_built r = Z.of_nat n mod 2 ^ 32.
Proof.
  assert (NoDup (map (@Hostname sound_fleet) (seq 0 n))) as Hnd.
  { apply (NoDup_fmap_2 pretty). apply NoDup_seq. }
  destruct (@compute_all_built sound_fleet (λ k, k) (seq 0 n)
              (pre_devices (@precompute sound_fleet (seq 0 n))))
    as (_ & Hok & Herr & Hbuilt).
  - done.
  - intros dev Hin. unfold is_nil, precompute.
    by rewrite (@precompute_loop_lookup sound_fleet) by done.
  - cbv zeta. change (@DeviceInventory sound_fleet (seq 0 n)) with (seq 0 n) in *.
    rewrite length_seq in *. done.
Qed.

Lemma uint32_values_spec : Z.of_nat uint32_values = 2 ^ 32.
Proof. unfold uint32_values. rewrite Z2Nat.id; lia. Qed.

(** C4, as the claim has it, fails: with 2^32 devices, all of which have a
    model and generate their configuration, 2^32 goroutines return no error
    and [compute] returns the count 0. *)
Lemma C4_counterexample_uint32_wraps :
  let r :=
    @compute sound_fleet (λ k, k) (seq 0 uint32_values)
      (pre_devices (@precompute sound_fleet (seq 0 uint32_values))) in
  length (succeeded (cr_final r)) = uint32_values
  ∧ cr_error r = None
  ∧ cr_built r = 0
  ∧ cr_built r ≠ Z.of_nat (length (succeeded (cr_final r))).
Proof.
  destruct (sound_fleet_all_built uint32_values) as (Hok & Herr & Hbuilt).
  cbv zeta. rewrite Hbuilt, Hok, uint32_values_spec.
  split; [reflexivity|]. split; [exact Herr|]. split; [reflexivity|]. discriminate.
Qed.

(** ** The fleet of ten devices *)

Lemma C5_witness_ten_devices :
  NoDup (map (@Hostname ten_devices) (seq 0 10))
  ∧ size (pre_devices (@precompute ten_devices (seq 0 10))) = 10%nat
  ∧ pre_devices (@precompute ten_devices (seq 0 10)) !! "3" = Some None
  ∧ pre_devices (@precompute ten_devices (seq 0 10)) !! "4" = Some (Some (4%nat, false))
  ∧ pre_errors (@precompute ten_devices (seq 0 10)) ≠ None.
Proof.
  assert (NoDup (map (@Hostname ten_devices) (seq 0 10))) as Hnd by compute_done.
  destruct (@C5_precompute_one_entry_per_device ten_devices (seq 0 10) Hnd)
    as (Hsize & Hentry & Herr).
  split; [exact Hnd|]. split; [exact Hsize|]. split; [|split].
  - apply (Hentry 3%nat). compute_done.
  - apply (Hentry 4%nat). compute_done.
  - apply Herr. exists 3%nat, (errorString "no model for 3").
    split; [compute_done|reflexivity].
Defined.

Lemma C2_witness_generation_fails :
  rb_error (@RunBuild ten_devices_flaky lenient_policy
              (@fetched ten_devices_flaky (seq 0 10))) ≠ None
  ∧ rb_devices (@RunBuild ten_devices_flaky lenient_policy
                  (@fetched ten_devices_flaky (seq 0 10))) = None.
Proof.
  assert (rb_error (@RunBuild ten_devices_flaky lenient_policy
                      (@fetched ten_devices_flaky (seq 0 10))) ≠ None) as Herr
    by (vm_compute; discriminate).
  split; [exact Herr|].
  exact (proj1 (@C2_RunBuild_error_returns_nil_devices ten_devices_flaky
                  lenient_policy (@fetched ten_devices_flaky (seq 0 10)) Herr)).
Defined.

Lemma C3_witness_strict_policy :
  AllDevicesMustBuild strict_policy = true
  ∧ pre_errors (@precompute ten_devices (seq 0 10)) ≠ None
  ∧ rb_error (@RunBuild ten_devices strict_policy (@fetched ten_devices (seq 0 10)))
    = Some (errors_New "failed: all devices must build")
  ∧ rb_devices (@RunBuild ten_devices strict_policy (@fetched ten_devices (seq 0 10)))
    = None
  ∧ rb_trace (@RunBuild ten_devices strict_policy (@fetched ten_devices (seq 0 10)))
    = [Send (mkMessage PrecomputeMessage SeverityError "no model for 3")].
Proof.
  assert (pre_errors (@precompute ten_devices (seq 0 10)) ≠ None) as Hpre
    by (vm_compute; discriminate).
  destruct (@C3_RunBuild_strict_policy_stops_before_compute ten_devices
              strict_policy (@fetched ten_devices (seq 0 10)) (seq 0 10)
              eq_refl eq_refl Hpre) as (Herr & Hdev & Htrace & _).
  split; [reflexivity|]. split; [exact Hpre|]. split; [exact Herr|].
  split; [exact Hdev|]. rewrite Htrace. vm_compute. reflexivity.
Defined.

Lemma C8_witness_nine_built :
  AllDevicesMustBuild lenient_policy = false
  ∧ pre_errors (@precompute ten_devices (seq 0 10)) ≠ None
  ∧ rb_error (@RunBuild ten_devices lenient_policy (@fetched ten_devices (seq 0 10)))
    = None
  ∧ BuiltDevicesCount
      (rb_stats (@RunBuild ten_devices lenient_policy
                   (@fetched ten_devices (seq 0 10)))) = 9.
Proof.
  assert (pre_errors (@precompute ten_devices (seq 0 10)) ≠ None) as Hpre
    by (vm_compute; discriminate).
  destruct (@C8_RunBuild_lenient_policy_proceeds ten_devices lenient_policy
              (@fetched ten_devices (seq 0 10)) (seq 0 10) eq_refl eq_refl Hpre)
    as (_ & _ & _ & _ & _ & Hten).
  destruct Hten as (Herr & Hcount & _).
  - compute_done.
  - reflexivity.
  - vm_compute. reflexivity.
  - intros dev d _ _. reflexivity.
  - split; [reflexivity|]. split; [exact Hpre|]. split; [exact Herr|exact Hcount].
Defined.

Lemma C10_witness_nil_entry_published :
  rb_error (@RunBuild ten_devices lenient_policy (@fetched ten_devices (seq 0 10)))
  = None
  ∧ ∃ devs,
      published (@build_cycle ten_devices lenient_policy
                   (@fetched ten_devices (seq 0 10)) (mkSup None []))
      = Some devs
      ∧ size devs = 10%nat
      ∧ devs !! "3" = Some None
      ∧ devs !! "4" = Some (Some (4%nat, true)).
Proof.
  assert (NoDup (map (@Hostname ten_devices) (seq 0 10))) as Hnd by compute_done.
  assert (rb_error (@RunBuild ten_devices lenient_policy
                      (@fetched ten_devices (seq 0 10))) = None) as Hok
    by (vm_compute; reflexivity).
  destruct (@C10_published_set_keeps_nil_entries ten_devices lenient_policy
              (@fetched ten_devices (seq 0 10)) (seq 0 10) (mkSup None [])
              eq_refl Hok) as (devs & _ & Hpub & _ & _ & _ & Hdistinct).
  destruct (Hdistinct Hnd) as (Hsize & Hentry & _).
  split; [exact Hok|].
  exists devs. split; [exact Hpub|]. split; [exact Hsize|]. split.
  - apply (Hentry 3%nat). compute_done.
  - apply (Hentry 4%nat). compute_done.
Defined.

(** ** The model at work *)

Example Error_joined :
  errors_Join [errors_Join [None; Some (errors_New "no model for 3")];
               Some (errors_New "no model for 7")]
  = Some (joinError [joinError [errorString "no model for 3"];
                     errorString "no model for 7"])
  ∧ Error (joinError [joinError [errorString "no model for 3"];
                      errorString "no model for 7"])
    = "no model for 3" +:+ newline +:+ "no model for 7".
Proof. split; reflexivity. Qed.

Example ten_devices_built_under_any_order :
  cr_built (@compute ten_devices (λ n, n) (seq 0 10)
              (pre_devices (@precompute ten_devices (seq 0 10)))) = 9
  ∧ cr_built (@compute ten_devices (λ n, 0%nat) (seq 0 10)
                (pre_devices (@precompute ten_devices (seq 0 10)))) = 9
  ∧ cr_built (@compute ten_devices (λ n, (7 * n + 3)%nat) (seq 0 10)
                (pre_devices (@precompute ten_devices (seq 0 10)))) = 9.
Proof. vm_compute. done. Qed.

Example ten_devices_flaky_build :
  let r := @RunBuild ten_devices_flaky lenient_policy
             (@fetched ten_devices_flaky (seq 0 10)) in
  rb_error r = Some (errors_New "OpenConfig conversion failed")
  ∧ rb_devices r = None
  ∧ BuiltDevicesCount (rb_stats r) = 8
  ∧ Send (mkMessage ComputeMessage Warning "device 3 has no configuration")
      ∈ rb_trace r
  ∧ Send (mkMessage PrecomputeMessage SeverityError "no configuration for 5")
      ∈ rb_trace r.
Proof.
  cbv zeta. split; [by vm_compute|]. split; [by vm_compute|].
  split; [by vm_compute|]. split; compute_done.
Qed.

Example fetch_failure_build :
  let r := @RunBuild ten_devices strict_policy (@fetch_failed ten_devices) in
  rb_error r = Some (errorString "cannot reach the inventory")
  ∧ rb_devices r = None
  ∧ rb_stats r = Stats_zero
  ∧ rb_trace r = [].
Proof. vm_compute. done. Qed.

Example loop_stops_at_third_select :
  let waits n :=
    match n with
    | O => IntervalElapsed
    | S O => TriggerReceived
    | _ => TriggerClosed
    end in
  let run := @StartBuildLoop ten_devices 5 lenient_policy
               (λ _, @fetched ten_devices (seq 0 2)) waits None in
  run.2 = true
  ∧ omap (λ c, match c with Select o => Some o | _ => None end) (calls run.1)
    = [IntervalElapsed; TriggerReceived; TriggerClosed]
  ∧ length (filter (λ c, is_Set c = true) (calls run.1)) = 3%nat
  ∧ last (calls run.1) = Some stopping.
Proof. vm_compute. done. Qed.

(** * More properties of the four functions *)

Section More_precompute.
Context `{X : Externals}.

Lemma last_named_snoc h inventory dev :
  last_named h (inventory ++ [dev])
  = if decide (Hostname dev = h) then Some dev else last_named h inventory.
Proof.
  unfold last_named. rewrite filter_app, filter_cons, filter_nil.
  case_decide; [apply last_snoc|by rewrite app_nil_r].
Qed.

Lemma precompute_loop_last dd inventory h :
  pre_devices (precompute_loop dd (mkPre ∅ None []) inventory) !! h
  = precompute_entry dd <$> last_named h inventory.
Proof.
  induction inventory as [|dev inventory IH] using rev_ind; [done|].
  rewrite precompute_loop_snoc, precompute_step_devices, last_named_snoc.
  case_decide as Hh.
  - subst h. by rewrite lookup_insert_eq.
  - by rewrite lookup_insert_ne.
Qed.

Lemma precompute_loop_size_le dd inventory :
  (size (pre_devices (precompute_loop dd (mkPre ∅ None []) inventory))
   ≤ length inventory)%nat.
Proof.
  induction inventory as [|dev inventory IH] using rev_ind; [done|].
  rewrite precompute_loop_snoc, precompute_step_devices, length_app.
  rewrite map_size_insert. simpl. destruct (_ !! _); unfold id; lia.
Qed.

(** X1. Whatever the inventory, the entry [precompute] returns under a hostname
    is that of the last record that bears it: records that share a hostname
    overwrite one another, and a hostname no record bears has no entry. So
    the map has at most as many entries as the inventory has records. *)
Theorem precompute_last_record_wins (ingestorRepo : Assets) (h : string) :
  let r := precompute ingestorRepo in
  pre_devices r !! h
  = (λ dev, match NewDevice dev (Precompute ingestorRepo) with
            | inl newDevice => Some newDevice
            | inr _ => None
            end) <$> last_named h (DeviceInventory ingestorRepo)
  ∧ (pre_devices r !! h = None ↔ h ∉ map Hostname (DeviceInventory ingestorRepo))
  ∧ (size (pre_devices r) ≤ length (DeviceInventory ingestorRepo))%nat.
Proof.
  intros r. subst r. unfold precompute. split; [|split].
  - rewrite precompute_loop_last. by destruct (last_named _ _).
  - rewrite eq_None_not_Some, precompute_loop_dom. simpl. rewrite lookup_empty.
    split; [intros Hn Hin; apply Hn; by left|].
    intros Hn [Hin|[? [=]]]. done.
  - apply precompute_loop_size_le.
Qed.

(** X2. When [precompute] returns no error, no entry of its map is the failure
    marker, and [compute] then, under every schedule, skips no device: what
    its loop does is to start a goroutine for each record of the inventory,
    in order. *)
Theorem precompute_no_error_no_marker (ingestorRepo : Assets) :
  pre_errors (precompute ingestorRepo) = None →
  (∀ h, pre_devices (precompute ingestorRepo) !! h ≠ Some None)
  ∧ ∀ sched,
      let c := compute sched ingestorRepo (pre_devices (precompute ingestorRepo)) in
      length (c_tasks (cr_final c)) = length (DeviceInventory ingestorRepo)
      ∧ filter (λ e, is_main_event e = true) (cr_trace c)
        = map (λ dev, Go (Hostname dev)) (DeviceInventory ingestorRepo).
Proof.
  intros Hnone. unfold precompute in Hnone.
  rewrite precompute_loop_errors in Hnone. simpl in Hnone.
  apply join_all_None in Hnone. pose proof (proj1 (failures_nil _ _) Hnone) as Hok.
  assert (Hentry : ∀ h, pre_devices (precompute ingestorRepo) !! h ≠ Some None).
  { intros h. unfold precompute. rewrite precompute_loop_last.
    unfold last_named.
    destruct (last (filter _ _)) as [dev|] eqn:Hlast; [|done]. simpl.
    assert (dev ∈ DeviceInventory ingestorRepo) as Hin.
    { apply last_Some_elem_of in Hlast.
      by apply list_elem_of_filter in Hlast as [_ ?]. }
    specialize (Hok dev Hin). unfold NewDevice_error, precompute_entry in *.
    by destruct (NewDevice dev _). }
  split; [exact Hentry|]. intros sched c.
  assert (Hvalid : ∀ dev, dev ∈ DeviceInventory ingestorRepo →
            is_nil (pre_devices (precompute ingestorRepo)) (Hostname dev) = false).
  { intros dev Hin. unfold is_nil.
    destruct (pre_devices (precompute ingestorRepo) !! Hostname dev)
      as [[d|]|] eqn:Hd; [done|by destruct (Hentry (Hostname dev))|].
    exfalso.
    assert (is_Some (pre_devices (precompute ingestorRepo) !! Hostname dev))
      as [e He].
    { unfold precompute. apply precompute_loop_dom. left.
      by apply (list_elem_of_fmap_2 Hostname). }
    congruence. }
  destruct (compute_returns sched ingestorRepo
              (pre_devices (precompute ingestorRepo))) as (Hret & _ & Htr & _).
  pose proof (compute_final_inv sched ingestorRepo
                (pre_devices (precompute ingestorRepo))) as Hinv.
  fold c in Hret, Htr, Hinv. clearbody c.
  destruct (returned_values _ _ _ _ _ Hinv Hret) as (_ & _ & _ & Hlen & _ & Hmain).
  rewrite <- Htr in Hmain.
  assert (marked_devices (pre_devices (precompute ingestorRepo))
            (DeviceInventory ingestorRepo) = []) as Hm.
  { apply filter_none. intros dev Hin. by rewrite (Hvalid dev Hin). }
  rewrite Hm in Hlen. cbn [length] in Hlen. split; [lia|].
  rewrite Hmain. apply map_ext_in. intros dev Hin%list_elem_of_In.
  unfold main_event. by rewrite (Hvalid dev Hin).
Qed.

End More_precompute.

Section More_compute.
Context `{X : Externals}.

Lemma omap_list_insert_same {A B} (f : A → option B) (l : list A) i x y :
  l !! i = Some x → f y = f x → omap f (<[i:=y]> l) = omap f l.
Proof.
  revert i. induction l as [|a l IH]; intros [|i] Hi Hf; simplify_eq/=.
  - by rewrite Hf.
  - by rewrite (IH i).
Qed.

Lemma omap_list_insert_new {A B} (f : A → option B) (l : list A) i x y b :
  l !! i = Some x → f x = None → f y = Some b →
  omap f (<[i:=y]> l) ≡ₚ omap f l ++ [b].
Proof.
  revert i. induction l as [|a l IH]; intros [|i] Hi Hx Hy; simplify_eq/=.
  - rewrite Hx, Hy. by rewrite Permutation_app_comm.
  - destruct (f a); simpl; by rewrite (IH i).
Qed.

Lemma compute_init_reports inventory devices :
  reports_inv (compute_init inventory devices).
Proof. unfold reports_inv. simpl. reflexivity. Qed.

Lemma step_at_reports th s s' :
  reports_inv s → step_at th s = Some s' → reports_inv s'.
Proof.
  unfold reports_inv. intros Hinv Hstep. destruct th as [|i]; simpl in Hstep.
  - unfold main_step in Hstep. destruct (c_ret s); [done|].
    destruct (c_todo s) as [|dev rest]; [case_decide; by simplify_eq|].
    destruct (is_nil _ _); simplify_eq; simpl.
    + by rewrite filter_app, filter_cons_False, filter_nil, app_nil_r.
    + rewrite filter_app, filter_cons_False, filter_nil, app_nil_r by done.
      rewrite omap_app. simpl. by rewrite app_nil_r.
  - unfold task_step in Hstep.
    destruct (c_tasks s !! i) as [[h p err]|] eqn:Hi; [|done].
    destruct p; simpl in Hstep; try done;
      try (destruct (c_mutex s); [done|]);
      try (simplify_eq; simpl; by erewrite omap_list_insert_same).
    + destruct (c_devices s !! h) as [[d|]|]; try done.
      destruct (Generateconfigs d) as [d' [e'|]]; simplify_eq; simpl;
        by erewrite omap_list_insert_same.
    + destruct err as [e|]; [|done]. simplify_eq. simpl.
      rewrite filter_app, filter_cons_True, filter_nil by done.
      rewrite Hinv. symmetry. by eapply omap_list_insert_new.
Qed.

Lemma run_reports ths s s' :
  reports_inv s → run ths s = Some s' → reports_inv s'.
Proof.
  revert s. induction ths as [|th ths IH]; simpl; intros s Hinv Hrun.
  - by simplify_eq.
  - destruct (step_at th s) as [s1|] eqn:Hstep; [|done]. simpl in Hrun.
    eauto using step_at_reports.
Qed.

Lemma compute_init_frame inventory devices :
  frame_inv devices (compute_init inventory devices).
Proof. by intros h _. Qed.

Lemma step_at_frame devices th s s' :
  frame_inv devices s → step_at th s = Some s' → frame_inv devices s'.
Proof.
  unfold frame_inv. intros Hinv Hstep. destruct th as [|i]; simpl in Hstep.
  - unfold main_step in Hstep. destruct (c_ret s); [done|].
    destruct (c_todo s) as [|dev rest]; [case_decide; by simplify_eq|].
    destruct (is_nil _ _); simplify_eq; simpl; [done|].
    intros h Hh. apply Hinv. intros Hin. apply Hh.
    rewrite map_app. apply elem_of_app. by left.
  - unfold task_step in Hstep.
    destruct (c_tasks s !! i) as [[h p err]|] eqn:Hi; [|done].
    pose proof (λ p' err', map_t_host_insert _ _ _ (mkTask h p' err') Hi eq_refl)
      as Hhosts.
    destruct p; simpl in Hstep; try done;
      try (destruct err; [|done]); try (destruct (c_mutex s); [done|]);
      try (simplify_eq; simpl; by rewrite Hhosts).
    destruct (c_devices s !! h) as [[d|]|]; try done.
    destruct (Generateconfigs d) as [d' e']. simplify_eq. simpl.
    rewrite Hhosts. intros h' Hh'. rewrite lookup_insert_ne; [by apply Hinv|].
    intros <-. apply Hh'. apply list_elem_of_lookup. exists i.
    by rewrite list_lookup_fmap, Hi.
Qed.

Lemma run_frame devices ths s s' :
  frame_inv devices s → run ths s = Some s' → frame_inv devices s'.
Proof.
  revert s. induction ths as [|th ths IH]; simpl; intros s Hinv Hrun.
  - by simplify_eq.
  - destruct (step_at th s) as [s1|] eqn:Hstep; [|done]. simpl in Hrun.
    eauto using step_at_frame.
Qed.

(** What [compute] gives back, with the facts that hold of its last state. *)
Lemma compute_final sched ingestorRepo devices :
  let c := compute sched ingestorRepo devices in
  c_ret (cr_final c) = Some (cr_built c, cr_error c)
  ∧ cr_devices c = c_devices (cr_final c)
  ∧ cr_trace c = c_trace (cr_final c)
  ∧ compute_inv (DeviceInventory ingestorRepo) devices (cr_final c)
  ∧ reports_inv (cr_final c)
  ∧ frame_inv devices (cr_final c).
Proof.
  intros c.
  destruct (compute_returns sched ingestorRepo devices)
    as (Hret & Hdev & Htr & ths & Hrun).
  fold c in Hret, Hdev, Htr, Hrun.
  split; [done|]. split; [done|]. split; [done|]. split; [|split].
  - apply compute_final_inv.
  - eapply run_reports; [apply compute_init_reports|exact Hrun].
  - eapply run_frame; [apply compute_init_frame|exact Hrun].
Qed.

Lemma compute_markers sched ingestorRepo devices :
  marker <$> cr_devices (compute sched ingestorRepo devices) = marker <$> devices.
Proof.
  destruct (compute_final sched ingestorRepo devices)
    as (_ & Hdev & _ & Hinv & _).
  rewrite Hdev. exact (inv_markers _ _ _ Hinv).
Qed.

Lemma markers_same (m m' : gmap string (option Device)) :
  marker <$> m = marker <$> m' →
  dom m = dom m' ∧ ∀ h, m !! h = Some None ↔ m' !! h = Some None.
Proof.
  intros Hmk. split.
  - rewrite <- (dom_fmap_L marker m), Hmk. apply dom_fmap_L.
  - intros h.
    assert (marker <$> m !! h = marker <$> m' !! h) as Hshape.
    { rewrite <- !lookup_fmap. by rewrite Hmk. }
    destruct (m !! h) as [[d|]|], (m' !! h) as [[d'|]|];
      simpl in Hshape; split; intros; simplify_eq; done.
Qed.

(** X3. [compute] changes nothing of the map but the models it generates: under
    every schedule the map keeps its keys and its failure markers, and the
    entry of a hostname that no record of the inventory bears is as it was. *)
Theorem compute_keeps_keys_and_markers (sched : nat → nat)
    (ingestorRepo : Assets) (devices : gmap string (option Device)) :
  let c := compute sched ingestorRepo devices in
  (∀ h, cr_devices c !! h = None ↔ devices !! h = None)
  ∧ (∀ h, cr_devices c !! h = Some None ↔ devices !! h = Some None)
  ∧ (∀ h, h ∉ map Hostname (DeviceInventory ingestorRepo) →
       cr_devices c !! h = devices !! h)
  ∧ (∀ h, is_nil devices h = true → cr_devices c !! h = devices !! h)
  ∧ dom (cr_devices c) = dom devices.
Proof.
  intros c.
  destruct (compute_final sched ingestorRepo devices)
    as (Hret & Hdev & _ & Hinv & _ & Hframe).
  fold c in Hret, Hdev, Hinv, Hframe. clearbody c. rewrite Hdev.
  pose proof (inv_markers _ _ _ Hinv) as Hmk.
  assert (Hshape : ∀ h, marker <$> c_devices (cr_final c) !! h
                        = marker <$> devices !! h).
  { intros h. rewrite <- !lookup_fmap. by rewrite Hmk. }
  destruct (returned_values _ _ _ _ _ Hinv Hret) as (_ & _ & _ & _ & Hhosts & _).
  assert (Hnil : ∀ h, is_nil devices h = true →
            c_devices (cr_final c) !! h = devices !! h).
  { intros h Hh. apply Hframe. rewrite Hhosts. intros Hin.
    change (h ∈ Hostname <$> valid_devices devices (DeviceInventory ingestorRepo))
      in Hin.
    apply list_elem_of_fmap in Hin as (dev & -> & Hdev').
    apply list_elem_of_filter in Hdev' as [Hv _]. congruence. }
  split; [|split; [|split; [|split]]].
  - intros h. specialize (Hshape h).
    destruct (c_devices (cr_final c) !! h), (devices !! h); simpl in Hshape;
      split; intros; simplify_eq; done.
  - intros h. specialize (Hshape h).
    destruct (c_devices (cr_final c) !! h) as [[d|]|], (devices !! h) as [[d'|]|];
      simpl in Hshape; split; intros; simplify_eq; done.
  - intros h Hh. apply Hframe. rewrite Hhosts. intros Hin. apply Hh.
    change (h ∈ Hostname <$> valid_devices devices (DeviceInventory ingestorRepo))
      in Hin.
    apply list_elem_of_fmap in Hin as (dev & -> & Hdev').
    apply list_elem_of_filter in Hdev' as [_ Hdev'].
    by apply (list_elem_of_fmap_2 Hostname).
  - exact Hnil.
  - rewrite <- (dom_fmap_L marker (c_devices (cr_final c))), Hmk.
    apply dom_fmap_L.
Qed.

(** X4. [compute] returns only once every goroutine it started has run to its
    end: under every schedule, when it returns the loop is over, each
    goroutine has called [wg.Done()], the counter of the [WaitGroup] is back
    to zero, the mutex is free, and [failed] is set if and only if the error
    returned is non-nil. *)
Theorem compute_returns_after_its_goroutines (sched : nat → nat)
    (ingestorRepo : Assets) (devices : gmap string (option Device)) :
  let c := compute sched ingestorRepo devices in
  c_todo (cr_final c) = []
  ∧ Forall (λ t, t_pc t = Finished) (c_tasks (cr_final c))
  ∧ c_wg (cr_final c) = 0
  ∧ c_mutex (cr_final c) = false
  ∧ (c_failed (cr_final c) = true ↔ cr_error c ≠ None)
  ∧ ∀ th, step_at th (cr_final c) = None.
Proof.
  intros c.
  destruct (compute_final sched ingestorRepo devices) as (Hret & _ & _ & Hinv & _).
  fold c in Hret, Hinv. clearbody c.
  assert (is_Some (c_ret (cr_final c))) as Hs by (rewrite Hret; eauto).
  destruct (inv_ret _ _ _ Hinv _ _ Hret) as (Htodo & Hwg & _ & He).
  assert (Forall (λ t, t_pc t = Finished) (c_tasks (cr_final c))) as Hfin.
  { apply Forall_forall. intros t Hin. by eapply returned_finished. }
  split; [done|]. split; [done|]. split; [done|]. split; [|split].
  - pose proof (inv_mutex _ _ _ Hinv) as Hm.
    assert (sum_list_with critical_of (c_tasks (cr_final c)) = 0%nat) as Hz.
    { clear Hm. induction Hfin as [|t l Ht _ IH]; [done|].
      simpl. rewrite IH. unfold critical_of. by rewrite Ht. }
    rewrite Hz in Hm. by destruct (c_mutex (cr_final c)).
  - rewrite He. by destruct (c_failed (cr_final c)).
  - intros th. by eapply returned_no_step.
Qed.

(** X5. No run of [compute] gets stuck, and none goes on for ever: in a state
    reached by any run of its goroutines, as long as [compute] has not
    returned some goroutine can make a step, at most one goroutine holds the
    mutex, and the run has made at most 7 N + 1 steps, N being the number of
    records of the inventory. *)
Theorem compute_runs_never_stick (inventory : list NetworkDevice)
    (devices : gmap string (option Device)) (ths : list thread) (s : cstate) :
  run ths (compute_init inventory devices) = Some s →
  (c_ret s = None → ∃ th, is_Some (step_at th s))
  ∧ (sum_list_with critical_of (c_tasks s) ≤ 1)%nat
  ∧ (c_mutex s = true ↔ sum_list_with critical_of (c_tasks s) = 1%nat)
  ∧ (length ths ≤ 7 * length inventory + 1)%nat.
Proof.
  intros Hrun.
  pose proof (run_inv _ _ _ _ _ (compute_init_inv inventory devices) Hrun) as Hinv.
  pose proof (inv_mutex _ _ _ Hinv) as Hm.
  split; [by apply (progress inventory devices)|]. split; [|split].
  - destruct (c_mutex s); lia.
  - destruct (c_mutex s); split; intros; try done; lia.
  - apply run_length in Hrun. unfold measure at 2 in Hrun. simpl in Hrun. lia.
Qed.

Lemma length_omap_errors {B} (f : error → B) (tasks : list task) :
  length (omap (λ t, f <$> t_err t) tasks)
  = length (filter (λ t, t_err t ≠ None) tasks).
Proof.
  induction tasks as [|t l IH]; [done|].
  csimpl. rewrite filter_cons.
  destruct (t_err t); csimpl; try case_decide; simpl; try done; by rewrite IH.
Qed.

(** X6. Each goroutine of [compute] whose [Generateconfigs] fails reports its
    error once: under every schedule, what the goroutines have sent when
    [compute] returns is, in some order, one message of type
    [PrecomputeMessage] and severity Error with the text of the error for
    each goroutine that has one, and nothing else. *)
Theorem compute_reports_each_failure_once (sched : nat → nat)
    (ingestorRepo : Assets) (devices : gmap string (option Device)) :
  let c := compute sched ingestorRepo devices in
  filter (λ e, is_main_event e = false) (cr_trace c)
  ≡ₚ omap (λ t, (λ err, Send (mkMessage PrecomputeMessage SeverityError (Error err)))
                  <$> t_err t) (c_tasks (cr_final c))
  ∧ (∀ t err, t ∈ c_tasks (cr_final c) → t_err t = Some err →
       Send (mkMessage PrecomputeMessage SeverityError (Error err)) ∈ cr_trace c)
  ∧ length (filter (λ e, is_main_event e = false) (cr_trace c))
    = length (failed_tasks (cr_final c)).
Proof.
  intros c.
  destruct (compute_final sched ingestorRepo devices)
    as (Hret & _ & Htr & Hinv & Hrep & _).
  fold c in Hret, Htr, Hinv, Hrep. clearbody c. rewrite Htr.
  assert (is_Some (c_ret (cr_final c))) as Hs by (rewrite Hret; eauto).
  assert (omap reported_of (c_tasks (cr_final c))
          = omap (λ t, (λ err, Send (mkMessage PrecomputeMessage SeverityError
                                       (Error err))) <$> t_err t)
              (c_tasks (cr_final c))) as Heq.
  { assert (Forall (λ t, t_pc t = Finished) (c_tasks (cr_final c))) as Hfin
      by (apply Forall_forall; intros t Hin; by eapply returned_finished).
    induction Hfin as [|t l Ht _ IH]; [done|].
    csimpl. rewrite IH. unfold reported_of. by rewrite Ht. }
  unfold reports_inv in Hrep. rewrite Heq in Hrep.
  split; [exact Hrep|]. split.
  - intros t err Hin Herr.
    assert (Send (mkMessage PrecomputeMessage SeverityError (Error err))
            ∈ filter (λ e, is_main_event e = false) (c_trace (cr_final c))) as Hm.
    { rewrite Hrep. apply list_elem_of_omap. exists t. by rewrite Herr. }
    by apply list_elem_of_filter in Hm as [_ ?].
  - rewrite Hrep. apply length_omap_errors.
Qed.

(** With distinct hostnames, what [compute] returns is told by the devices
    alone, whatever the schedule. *)
Lemma compute_closed_form sched ingestorRepo devices :
  NoDup (map Hostname (DeviceInventory ingestorRepo)) →
  let c := compute sched ingestorRepo devices in
  cr_built c
  = Z.of_nat (length (built_devices devices (DeviceInventory ingestorRepo)))
    mod 2 ^ 32
  ∧ (cr_error c = None ∨ cr_error c = Some conversion_failed)
  ∧ (cr_error c = None
     ↔ Forall (λ dev, generates devices (Hostname dev) = true)
         (valid_devices devices (DeviceInventory ingestorRepo)))
  ∧ ∀ h, cr_devices c !! h
         = if decide (h ∈ map Hostname (DeviceInventory ingestorRepo))
           then generated <$> devices !! h
           else devices !! h.
Proof.
  intros Hnd c.
  destruct (compute_returns sched ingestorRepo devices)
    as (Hret & Hdev & _ & ths & Hrun).
  pose proof (compute_final_inv sched ingestorRepo devices) as Hinv.
  pose proof (run_outcome _ _ _ _ _ Hnd (compute_init_inv _ _)
                (compute_init_outcome _ _) Hrun) as Hout.
  fold c in Hret, Hdev, Hinv, Hout. clearbody c.
  assert (is_Some (c_ret (cr_final c))) as Hs by (rewrite Hret; eauto).
  destruct (returned_values _ _ _ _ _ Hinv Hret)
    as (Hn & He & Hcases & _ & Hhosts & _).
  split; [|split; [done|split]].
  - rewrite Hn. by erewrite returned_succeeded.
  - rewrite He. unfold failed_tasks. split.
    + intros Hnil. apply Forall_forall. intros dev Hdevin.
      assert (Hostname dev ∈ map t_host (c_tasks (cr_final c))) as Hin
        by (rewrite Hhosts; by apply (list_elem_of_fmap_2 Hostname)).
      change (Hostname dev ∈ t_host <$> c_tasks (cr_final c)) in Hin.
      apply list_elem_of_fmap in Hin as (t & Hh & Hin).
      destruct (returned_task_outcome _ _ _ _ Hinv Hout Hs Hin) as (d & Hd & Hte & _).
      unfold generates. rewrite Hh, Hd, <- Hte.
      destruct (t_err t) eqn:Herr; [|done].
      exfalso. eapply (filter_nil_not_elem_of _ _ t Hnil); [|done]. by rewrite Herr.
    + intros Hall. apply filter_none. intros t Hin Hfail. apply Hfail.
      destruct (returned_task_outcome _ _ _ _ Hinv Hout Hs Hin) as (d & Hd & Hte & _).
      assert (t_host t ∈ map Hostname
                (valid_devices devices (DeviceInventory ingestorRepo))) as Hv
        by (rewrite <- Hhosts; by apply (list_elem_of_fmap_2 t_host)).
      change (t_host t ∈ Hostname <$>
                valid_devices devices (DeviceInventory ingestorRepo)) in Hv.
      apply list_elem_of_fmap in Hv as (dev & Hh & Hv).
      rewrite Forall_forall in Hall. specialize (Hall dev Hv).
      unfold generates in Hall. rewrite <- Hh, Hd in Hall. rewrite Hte.
      by destruct ((Generateconfigs d).2).
  - intros h. rewrite Hdev.
    destruct (decide (h ∈ map t_host (c_tasks (cr_final c)))) as [Hin|Hin].
    + assert (h ∈ map Hostname (DeviceInventory ingestorRepo)) as Hinv'.
      { rewrite Hhosts in Hin.
        change (h ∈ Hostname <$>
                  valid_devices devices (DeviceInventory ingestorRepo)) in Hin.
        apply list_elem_of_fmap in Hin as (dev & -> & Hv).
        apply list_elem_of_filter in Hv as [_ Hv].
        by apply (list_elem_of_fmap_2 Hostname). }
      rewrite decide_True by done.
      change (h ∈ t_host <$> c_tasks (cr_final c)) in Hin.
      apply list_elem_of_fmap in Hin as (t & -> & Hin).
      destruct (returned_task_outcome _ _ _ _ Hinv Hout Hs Hin) as (d & Hd & _ & Hc).
      by rewrite Hc, Hd.
    + rewrite (out_rest _ _ Hout _ Hin). case_decide as Hh; [|done].
      destruct (devices !! h) as [[d|]|] eqn:Hd; [|done..].
      exfalso. apply Hin. rewrite Hhosts.
      change (h ∈ Hostname <$> DeviceInventory ingestorRepo) in Hh.
      apply list_elem_of_fmap in Hh as (dev & -> & Hdev').
      apply (list_elem_of_fmap_2 Hostname). apply list_elem_of_filter.
      split; [|done]. unfold is_nil. by rewrite Hd.
Qed.

(** X7. With distinct hostnames the schedule of the goroutines does not show in
    what [compute] returns: the count, the error and the devices are the
    same under any two schedules. The count is that of the devices whose
    model generates its configuration, the error is nil if and only if each
    device that has a model generates, and each model of the inventory is as
    [Generateconfigs] leaves it. *)
Theorem compute_result_free_of_schedule (sched sched' : nat → nat)
    (ingestorRepo : Assets) (devices : gmap string (option Device)) :
  NoDup (map Hostname (DeviceInventory ingestorRepo)) →
  let c := compute sched ingestorRepo devices in
  let c' := compute sched' ingestorRepo devices in
  cr_built c = cr_built c'
  ∧ cr_error c = cr_error c'
  ∧ cr_devices c = cr_devices c'
  ∧ cr_built c
    = Z.of_nat (length (built_devices devices (DeviceInventory ingestorRepo)))
      mod 2 ^ 32
  ∧ (cr_error c = None
     ↔ ∀ dev d, dev ∈ DeviceInventory ingestorRepo →
         devices !! Hostname dev = Some (Some d) →
         (Generateconfigs d).2 = None)
  ∧ ∀ dev d, dev ∈ DeviceInventory ingestorRepo →
      devices !! Hostname dev = Some (Some d) →
      cr_devices c !! Hostname dev = Some (Some (Generateconfigs d).1).
Proof.
  intros Hnd c c'.
  destruct (compute_closed_form sched ingestorRepo devices Hnd)
    as (Hb & Hcases & He & Hd).
  destruct (compute_closed_form sched' ingestorRepo devices Hnd)
    as (Hb' & Hcases' & He' & Hd').
  fold c in Hb, Hcases, He, Hd. fold c' in Hb', Hcases', He', Hd'.
  clearbody c c'.
  split; [by rewrite Hb, Hb'|]. split; [|split; [|split; [done|split]]].
  - destruct Hcases as [Hc|Hc], Hcases' as [Hc'|Hc']; rewrite Hc, Hc'; try done.
    + apply He in Hc. apply He' in Hc. congruence.
    + apply He' in Hc'. apply He in Hc'. congruence.
  - apply map_eq. intros h. by rewrite Hd, Hd'.
  - rewrite He, Forall_forall. split.
    + intros Hall dev d Hin Hdev.
      assert (dev ∈ valid_devices devices (DeviceInventory ingestorRepo)) as Hv.
      { apply list_elem_of_filter. split; [|done]. unfold is_nil. by rewrite Hdev. }
      specialize (Hall dev Hv). unfold generates in Hall. rewrite Hdev in Hall.
      by destruct ((Generateconfigs d).2).
    + intros Hall dev [Hv Hin]%list_elem_of_filter. unfold generates.
      unfold is_nil in Hv.
      destruct (devices !! Hostname dev) as [[d|]|] eqn:Hdev; [|done..].
      by rewrite (Hall dev d Hin Hdev).
  - intros dev d Hin Hdev. rewrite Hd, decide_True, Hdev; [done|].
    by apply (list_elem_of_fmap_2 Hostname).
Qed.

Lemma only_main_events (trace : list event) :
  filter (λ e, is_main_event e = false) trace = [] →
  filter (λ e, is_main_event e = true) trace = trace.
Proof.
  induction trace as [|e l IH]; [done|]. rewrite !filter_cons.
  destruct (is_main_event e) eqn:Hm.
  - rewrite decide_False, decide_True by done. intros Hl. by rewrite IH.
  - by rewrite decide_True by done.
Qed.

(** X8. When every record of the inventory leads to a failure marker, and so on
    an empty inventory, [compute] starts no goroutine: it sends the warning
    of each record, in order and nothing else, leaves the map as it is, and
    returns the count 0 and no error. *)
Theorem compute_all_marked (sched : nat → nat) (ingestorRepo : Assets)
    (devices : gmap string (option Device)) :
  (∀ dev, dev ∈ DeviceInventory ingestorRepo →
     is_nil devices (Hostname dev) = true) →
  let c := compute sched ingestorRepo devices in
  c_tasks (cr_final c) = []
  ∧ cr_built c = 0
  ∧ cr_error c = None
  ∧ cr_trace c
    = map (λ dev, Send (mkMessage ComputeMessage Warning
                          ("device " +:+ Hostname dev +:+ " has no configuration")))
        (DeviceInventory ingestorRepo)
  ∧ cr_devices c = devices.
Proof.
  intros Hall c.
  destruct (compute_final sched ingestorRepo devices)
    as (Hret & Hdev & Htr & Hinv & Hrep & Hframe).
  fold c in Hret, Hdev, Htr, Hinv, Hrep, Hframe. clearbody c.
  destruct (returned_values _ _ _ _ _ Hinv Hret)
    as (Hn & He & _ & _ & Hhosts & Hmain).
  assert (valid_devices devices (DeviceInventory ingestorRepo) = []) as Hv.
  { apply filter_none. intros dev Hin. by rewrite (Hall dev Hin). }
  rewrite Hv in Hhosts. simpl in Hhosts.
  assert (c_tasks (cr_final c) = []) as Hnil
    by (by destruct (c_tasks (cr_final c))).
  unfold reports_inv in Hrep. rewrite Hnil in Hrep. simpl in Hrep.
  apply Permutation_nil_r in Hrep.
  split; [done|]. split; [|split; [|split]].
  - rewrite Hn. unfold succeeded. by rewrite Hnil.
  - apply He. unfold failed_tasks. by rewrite Hnil.
  - rewrite Htr.
    assert (filter (λ e, is_main_event e = true) (c_trace (cr_final c))
            = c_trace (cr_final c)) as Hall_main
      by (by apply only_main_events).
    rewrite <- Hall_main, Hmain. apply map_ext_in.
    intros dev Hin%list_elem_of_In. unfold main_event. by rewrite (Hall dev Hin).
  - rewrite Hdev. apply map_eq. intros h. apply Hframe. rewrite Hnil.
    apply not_elem_of_nil.
Qed.

End More_compute.

Section More_RunBuild.
Context `{X : Externals}.

Lemma RunBuild_compute_stats env ingestorRepo devices fetchD preD trace :
  rb_stats (RunBuild_compute env ingestorRepo devices fetchD preD trace)
  = mkStats (cr_built (compute (sched env) ingestorRepo devices))
      (mkPerformance fetchD preD
         (Time_Sub (now env 3) (now env 2)) (Time_Sub (now env 3) (now env 0))).
Proof. unfold RunBuild_compute. by destruct (cr_error _). Qed.

(** The stats of a build that goes as far as [compute]. *)
Lemma RunBuild_stats cfg env ingestorRepo :
  fetch_result env = inl ingestorRepo →
  (pre_errors (precompute ingestorRepo) = None ∨ AllDevicesMustBuild cfg = false) →
  rb_stats (RunBuild cfg env)
  = mkStats
      (cr_built (compute (sched env) ingestorRepo
                   (pre_devices (precompute ingestorRepo))))
      (mkPerformance
         (Time_Sub (now env 1) (now env 0)) (Time_Sub (now env 2) (now env 1))
         (Time_Sub (now env 3) (now env 2)) (Time_Sub (now env 3) (now env 0))).
Proof.
  intros Hfetch Hgo. unfold RunBuild. rewrite Hfetch.
  destruct (pre_errors (precompute ingestorRepo)) eqn:Hp.
  - destruct Hgo as [Hn| ->]; [done|]. apply RunBuild_compute_stats.
  - apply RunBuild_compute_stats.
Qed.

Lemma Time_Sub_bounds t u : - 2 ^ 63 ≤ Time_Sub t u ≤ 2 ^ 63 - 1.
Proof. unfold Time_Sub. lia. Qed.

Lemma Time_Sub_exact t u :
  - 2 ^ 63 ≤ t - u ≤ 2 ^ 63 - 1 → Time_Sub t u = t - u.
Proof. unfold Time_Sub. lia. Qed.

(** X9. The durations [RunBuild] records when the build goes as far as
    [compute] and the clock does not go back, nor runs over more than an
    [int64] of nanoseconds: they are the differences of the readings, none
    is negative, and the total is the sum of those of the three stages. *)
Theorem RunBuild_durations (cfg : Config) (env : BuildEnv)
    (ingestorRepo : Assets) :
  fetch_result env = inl ingestorRepo →
  (pre_errors (precompute ingestorRepo) = None ∨ AllDevicesMustBuild cfg = false) →
  now env 0 ≤ now env 1 ≤ now env 2 →
  now env 2 ≤ now env 3 < now env 0 + 2 ^ 63 →
  let p := Performance_ (rb_stats (RunBuild cfg env)) in
  DataFetchingDuration p = now env 1 - now env 0
  ∧ PrecomputeDuration p = now env 2 - now env 1
  ∧ ComputeDuration p = now env 3 - now env 2
  ∧ BuildDuration p
    = DataFetchingDuration p + PrecomputeDuration p + ComputeDuration p
  ∧ 0 ≤ DataFetchingDuration p ∧ 0 ≤ PrecomputeDuration p
  ∧ 0 ≤ ComputeDuration p.
Proof.
  intros Hfetch Hgo H012 H23 p. subst p.
  rewrite (RunBuild_stats cfg env ingestorRepo Hfetch Hgo).
  cbn [BuiltDevicesCount Performance_ DataFetchingDuration PrecomputeDuration ComputeDuration BuildDuration].
  rewrite !Time_Sub_exact by lia. lia.
Qed.

(** X10. Whatever the build and the clock, the durations [RunBuild] records lie
    within [int64] and the count within [uint32]; after a failed fetch the
    stats are all zero, and after a stop by the strict policy the count, the
    compute duration and the total duration are zero. *)
Theorem RunBuild_stats_bounds (cfg : Config) (env : BuildEnv) :
  let st := rb_stats (RunBuild cfg env) in
  let p := Performance_ st in
  (- 2 ^ 63 ≤ DataFetchingDuration p ≤ 2 ^ 63 - 1)
  ∧ (- 2 ^ 63 ≤ PrecomputeDuration p ≤ 2 ^ 63 - 1)
  ∧ (- 2 ^ 63 ≤ ComputeDuration p ≤ 2 ^ 63 - 1)
  ∧ (- 2 ^ 63 ≤ BuildDuration p ≤ 2 ^ 63 - 1)
  ∧ (0 ≤ BuiltDevicesCount st < 2 ^ 32)
  ∧ ((∃ err, fetch_result env = inr err) → st = Stats_zero)
  ∧ (∀ ingestorRepo,
       fetch_result env = inl ingestorRepo →
       AllDevicesMustBuild cfg = true →
       pre_errors (precompute ingestorRepo) ≠ None →
       BuiltDevicesCount st = 0 ∧ ComputeDuration p = 0 ∧ BuildDuration p = 0).
Proof.
  intros st p. subst p st.
  destruct (fetch_result env) as [ingestorRepo|err] eqn:Hfetch.
  - destruct (decide (pre_errors (precompute ingestorRepo) = None
                      ∨ AllDevicesMustBuild cfg = false)) as [Hgo|Hstop].
    + rewrite (RunBuild_stats cfg env ingestorRepo Hfetch Hgo).
      cbn [BuiltDevicesCount Performance_ DataFetchingDuration PrecomputeDuration ComputeDuration BuildDuration].
      destruct (compute_returns (sched env) ingestorRepo
                  (pre_devices (precompute ingestorRepo))) as (Hret & _).
      destruct (returned_values _ _ _ _ _ (compute_final_inv _ _ _) Hret)
        as (Hn & _).
      pose proof (Time_Sub_bounds (now env 1) (now env 0)).
      pose proof (Time_Sub_bounds (now env 2) (now env 1)).
      pose proof (Time_Sub_bounds (now env 3) (now env 2)).
      pose proof (Time_Sub_bounds (now env 3) (now env 0)).
      repeat (split; [lia|]). split; [|split].
      * rewrite Hn. apply Z.mod_pos_bound. lia.
      * by intros [? [=]].
      * intros repo [= <-] Hs Hp. destruct Hgo as [Hgo|Hgo]; [done|congruence].
    + assert (pre_errors (precompute ingestorRepo) ≠ None
              ∧ AllDevicesMustBuild cfg = true) as [Hpre Hstrict].
      { destruct (pre_errors (precompute ingestorRepo)), (AllDevicesMustBuild cfg);
          try done; exfalso; apply Hstop; auto. }
      unfold RunBuild. rewrite Hfetch, Hstrict.
      destruct (pre_errors (precompute ingestorRepo)); [|done]. simpl.
      pose proof (Time_Sub_bounds (now env 1) (now env 0)).
      pose proof (Time_Sub_bounds (now env 2) (now env 1)).
      repeat (split; [lia|]). split; [by intros [? [=]]|done].
  - unfold RunBuild. rewrite Hfetch. simpl.
    repeat (split; [lia|]). split; [done|]. by intros ? [=].
Qed.

(** X11. A build that succeeds has built every device that has a model: when
    [RunBuild] returns no error, its count is the number of records of the
    inventory whose entry in the map of [precompute] is not the failure
    marker, as a [uint32] counts it, and the map it returns has the keys
    and the failure markers of that of [precompute]. *)
Theorem RunBuild_success_builds_every_model (cfg : Config) (env : BuildEnv)
    (ingestorRepo : Assets) :
  fetch_result env = inl ingestorRepo →
  rb_error (RunBuild cfg env) = None →
  let pre := precompute ingestorRepo in
  BuiltDevicesCount (rb_stats (RunBuild cfg env))
  = Z.of_nat (length (valid_devices (pre_devices pre)
                        (DeviceInventory ingestorRepo))) mod 2 ^ 32
  ∧ ∃ devs,
      rb_devices (RunBuild cfg env) = Some devs
      ∧ dom devs = dom (pre_devices pre)
      ∧ ∀ h, devs !! h = Some None ↔ pre_devices pre !! h = Some None.
Proof.
  intros Hfetch Hok pre.
  assert (pre_errors (precompute ingestorRepo) = None
          ∨ AllDevicesMustBuild cfg = false) as Hgo.
  { destruct (pre_errors (precompute ingestorRepo)) eqn:Hp; [|by left].
    destruct (AllDevicesMustBuild cfg) eqn:Hs; [|by right].
    unfold RunBuild in Hok. by rewrite Hfetch, Hp, Hs in Hok. }
  destruct (RunBuild_proceeds cfg env ingestorRepo Hfetch Hgo)
    as (He & _ & Hn & Hd).
  rewrite Hok in He. rewrite <- He in Hd. fold pre in Hn, Hd, He.
  destruct (markers_same _ _ (compute_markers (sched env) ingestorRepo (pre_devices pre)))
    as (Hdom & Hmark).
  destruct (compute_returns (sched env) ingestorRepo (pre_devices pre))
    as (Hret & _).
  pose proof (compute_final_inv (sched env) ingestorRepo (pre_devices pre)) as Hinv.
  destruct (returned_values _ _ _ _ _ Hinv Hret) as (Hcount & Herr & _ & _ & Hhosts & _).
  split.
  - rewrite Hn, Hcount. do 2 f_equal.
    pose proof (tasks_split (cr_final (compute (sched env) ingestorRepo
                                         (pre_devices pre)))) as Hsplit.
    symmetry in He. apply Herr in He. rewrite He in Hsplit. cbn [length] in Hsplit.
    apply (f_equal length) in Hhosts. rewrite !length_map in Hhosts. lia.
  - eexists. split; [exact Hd|]. split; [exact Hdom|exact Hmark].
Qed.


End More_RunBuild.

Section More_StartBuildLoop.
Context `{X : Externals}.

(** The number of turns the loop makes within [fuel], from the [n]-th on. *)
Lemma build_loop_published fuel cfg envs waits n s :
  published (build_loop fuel cfg envs waits n s).1
  = published_after cfg envs n
      match first_closed waits n fuel with
      | Some j => S j
      | None => fuel
      end
      (published s).
Proof.
  revert n s. induction fuel as [|fuel IH]; intros n s; [done|].
  cbn [build_loop first_closed].
  destruct (waits n) eqn:Hw.
  - rewrite IH. by destruct (first_closed waits (S n) fuel).
  - rewrite IH. by destruct (first_closed waits (S n) fuel).
  - done.
Qed.

Lemma published_after_failed cfg envs n k repo :
  (∀ i, (i < k)%nat → rb_error (RunBuild cfg (envs (n + i)%nat)) ≠ None) →
  published_after cfg envs n k repo = repo.
Proof.
  revert n repo. induction k as [|k IH]; intros n repo Hfail; [done|].
  cbn [published_after]. rewrite IH.
  - specialize (Hfail 0%nat ltac:(lia)). rewrite Nat.add_0_r in Hfail.
    unfold build_cycle. cbn [published].
    by destruct (rb_error (RunBuild cfg (envs n))).
  - intros i Hi. replace (S n + i)%nat with (n + S i)%nat by lia.
    apply Hfail. lia.
Qed.

Lemma published_after_last cfg envs n k i repo :
  (i < k)%nat →
  rb_error (RunBuild cfg (envs (n + i)%nat)) = None →
  (∀ i', (i < i' < k)%nat → rb_error (RunBuild cfg (envs (n + i')%nat)) ≠ None) →
  published_after cfg envs n k repo = rb_devices (RunBuild cfg (envs (n + i)%nat)).
Proof.
  revert n i repo. induction k as [|k IH]; intros n i repo Hi Hok Hfail; [lia|].
  cbn [published_after]. destruct i as [|i].
  - rewrite Nat.add_0_r in *. rewrite published_after_failed.
    + unfold build_cycle. cbn [published]. by rewrite Hok.
    + intros i' Hi'. replace (S n + i')%nat with (n + S i')%nat by lia.
      apply Hfail. lia.
  - replace (n + S i)%nat with (S n + i)%nat in * by lia.
    apply IH; [lia|done|].
    intros i' Hi'. replace (S n + i')%nat with (n + S i')%nat by lia.
    apply Hfail. lia.
Qed.

Lemma channel_run_app st cs cs' :
  channel_run st (cs ++ cs') = channel_run st cs ≫= λ st', channel_run st' cs'.
Proof.
  revert st. induction cs as [|c cs IH]; intros st; [done|].
  cbn [app channel_run]. destruct (channel_step st c) as [st'|]; [|done].
  cbn [mbind option_bind]. apply IH.
Qed.

Lemma channel_run_pipeline (trace : list event) :
  channel_run (mkChannel true true) (map Pipeline trace)
  = Some (mkChannel true true).
Proof.
  induction trace as [|e trace IH]; [done|].
  cbn [map channel_run]. by destruct e.
Qed.

Lemma channel_run_cycle (r : build_result) :
  channel_run (mkChannel false false) (cycle_calls r)
  = Some (mkChannel false false).
Proof.
  unfold cycle_calls.
  change ([StartNewReport; MakeReportCh; GoWatch; UpdateStatus InProgress]
            ++ map Pipeline (rb_trace r) ++ after_build r)
    with (StartNewReport :: MakeReportCh :: GoWatch :: UpdateStatus InProgress
            :: (map Pipeline (rb_trace r) ++ after_build r)).
  cbn [channel_run channel_step ch_open ch_watched orb andb negb mbind option_bind].
  rewrite channel_run_app, channel_run_pipeline. cbn [mbind option_bind].
  unfold after_build. by destruct (rb_error r).
Qed.

Lemma channel_run_turns cfg envs waits n k :
  channel_run (mkChannel false false) (turns cfg envs waits n k)
  = Some (mkChannel false false).
Proof.
  revert n. induction k as [|k IH]; intros n; [done|].
  cbn [turns]. rewrite channel_run_app, channel_run_cycle.
  cbn [mbind option_bind app channel_run channel_step ch_open ch_watched orb].
  apply IH.
Qed.

Lemma statuses_pipeline (trace : list event) :
  statuses (map Pipeline trace) = [].
Proof. by induction trace. Qed.

Lemma outcomes_pipeline (trace : list event) :
  outcomes (map Pipeline trace) = [].
Proof. by induction trace. Qed.

Lemma statuses_cycle (r : build_result) :
  statuses (cycle_calls r) = [InProgress; final_status r].
Proof.
  unfold statuses, cycle_calls, after_build, final_status.
  rewrite !omap_app. fold (statuses (map Pipeline (rb_trace r))).
  rewrite statuses_pipeline. by destruct (rb_error r).
Qed.

Lemma outcomes_cycle (r : build_result) :
  outcomes (cycle_calls r) = [bool_decide (rb_error r = None)].
Proof.
  unfold outcomes, cycle_calls, after_build.
  rewrite !omap_app. fold (outcomes (map Pipeline (rb_trace r))).
  rewrite outcomes_pipeline. by destruct (rb_error r).
Qed.

Lemma statuses_turns cfg envs waits n k :
  statuses (turns cfg envs waits n k)
  = flat_map (λ i, [InProgress; final_status (RunBuild cfg (envs i))]) (seq n k).
Proof.
  revert n. induction k as [|k IH]; intros n; [done|].
  cbn [turns seq flat_map]. unfold statuses in *. rewrite !omap_app.
  fold (statuses (cycle_calls (RunBuild cfg (envs n)))).
  rewrite statuses_cycle, IH. done.
Qed.

Lemma outcomes_turns cfg envs waits n k :
  outcomes (turns cfg envs waits n k)
  = map (λ i, bool_decide (rb_error (RunBuild cfg (envs i)) = None)) (seq n k).
Proof.
  revert n. induction k as [|k IH]; intros n; [done|].
  cbn [turns seq map]. unfold outcomes in *. rewrite !omap_app.
  fold (outcomes (cycle_calls (RunBuild cfg (envs n)))).
  rewrite outcomes_cycle, IH. done.
Qed.

(** The calls of the loop within [fuel] turns, whether it has returned or
    not. *)
Lemma StartBuildLoop_calls fuel cfg envs waits deviceRepo :
  calls (StartBuildLoop fuel cfg envs waits deviceRepo).1
  = [NewRegistry]
    ++ turns cfg envs waits 0
         match first_closed waits 0 fuel with
         | Some j => S j
         | None => fuel
         end
    ++ match first_closed waits 0 fuel with
       | Some _ => [stopping]
       | None => []
       end.
Proof.
  unfold StartBuildLoop.
  pose proof (build_loop_spec cfg envs waits fuel 0 (mkSup deviceRepo [NewRegistry]))
    as Hspec. cbv zeta in Hspec.
  destruct (first_closed waits 0 fuel) as [j|]; destruct Hspec as [_ ->]; [done|].
  by rewrite app_nil_r.
Qed.

(** X13. When the loop returns, the set the consumer holds is that of the last
    build that succeeded, and the one the loop was started with if none
    did: the builds that fail after it leave it as it is. *)
Theorem StartBuildLoop_publishes_last_successful_build (fuel : nat)
    (cfg : Config) (envs : nat → BuildEnv) (waits : nat → select_outcome)
    (deviceRepo : option (gmap string (option Device))) (j : nat) :
  first_closed waits 0 fuel = Some j →
  let s := (StartBuildLoop fuel cfg envs waits deviceRepo).1 in
  ((∀ i, (i ≤ j)%nat → rb_error (RunBuild cfg (envs i)) ≠ None) →
     published s = deviceRepo)
  ∧ (∀ i, (i ≤ j)%nat →
       rb_error (RunBuild cfg (envs i)) = None →
       (∀ i', (i < i' ≤ j)%nat → rb_error (RunBuild cfg (envs i')) ≠ None) →
       published s = rb_devices (RunBuild cfg (envs i))
       ∧ is_Some (published s)).
Proof.
  intros Hfc s. subst s. unfold StartBuildLoop.
  rewrite build_loop_published, Hfc. cbn [published]. split.
  - intros Hfail. apply published_after_failed. intros i Hi. apply Hfail. lia.
  - intros i Hi Hok Hfail.
    rewrite (published_after_last cfg envs 0 (S j) i deviceRepo);
      [|lia|done|intros i' Hi'; apply Hfail; lia].
    split; [done|]. by apply RunBuild_success_devices.
Qed.

(** X14. The loop uses the report channel in order, turn after turn: it makes
    the channel, starts the observer on it, sends every message of the build
    while the channel is open and observed, closes it once, waits for the
    observer, and reaches each [select] with no channel open and no observer
    left. *)
Theorem StartBuildLoop_report_channel_in_order (fuel : nat) (cfg : Config)
    (envs : nat → BuildEnv) (waits : nat → select_outcome)
    (deviceRepo : option (gmap string (option Device))) :
  channel_run (mkChannel false false)
    (calls (StartBuildLoop fuel cfg envs waits deviceRepo).1)
  = Some (mkChannel false false).
Proof.
  rewrite StartBuildLoop_calls. cbn [app channel_run channel_step mbind option_bind].
  rewrite channel_run_app, channel_run_turns. cbn [mbind option_bind].
  by destruct (first_closed waits 0 fuel).
Qed.

(** X15. The statuses the loop gives the report are [InProgress] and then
    [Success] or [Failed] by the error of the build, once per turn; [Idle]
    is never set. The metrics get one outcome per turn, [BuildSuccessful]
    exactly for the builds without error, and the consumer is given a set as
    many times as a build succeeded. *)
Theorem StartBuildLoop_statuses_per_turn (fuel : nat) (cfg : Config)
    (envs : nat → BuildEnv) (waits : nat → select_outcome)
    (deviceRepo : option (gmap string (option Device))) :
  let cs := calls (StartBuildLoop fuel cfg envs waits deviceRepo).1 in
  let k := match first_closed waits 0 fuel with
           | Some j => S j
           | None => fuel
           end in
  statuses cs
  = flat_map (λ i, [InProgress; final_status (RunBuild cfg (envs i))]) (seq 0 k)
  ∧ (Idle ∉ statuses cs)
  ∧ outcomes cs
    = map (λ i, bool_decide (rb_error (RunBuild cfg (envs i)) = None)) (seq 0 k)
  ∧ length (filter (λ c, is_Set c = true) cs)
    = length (filter (λ b, b = true) (outcomes cs)).
Proof.
  intros cs k. subst cs. rewrite StartBuildLoop_calls. fold k.
  assert (Hst : statuses ([NewRegistry] ++ turns cfg envs waits 0 k
                            ++ match first_closed waits 0 fuel with
                               | Some _ => [stopping]
                               | None => []
                               end)
                = flat_map (λ i, [InProgress; final_status (RunBuild cfg (envs i))])
                    (seq 0 k)).
  { unfold statuses. rewrite !omap_app. fold (statuses (turns cfg envs waits 0 k)).
    rewrite statuses_turns. cbn [omap list_omap app].
    destruct (first_closed waits 0 fuel); cbn [omap list_omap stopping];
      by rewrite app_nil_r. }
  assert (Hout : outcomes ([NewRegistry] ++ turns cfg envs waits 0 k
                             ++ match first_closed waits 0 fuel with
                                | Some _ => [stopping]
                                | None => []
                                end)
                 = map (λ i, bool_decide (rb_error (RunBuild cfg (envs i)) = None))
                     (seq 0 k)).
  { unfold outcomes. rewrite !omap_app. fold (outcomes (turns cfg envs waits 0 k)).
    rewrite outcomes_turns. cbn [omap list_omap app].
    destruct (first_closed waits 0 fuel); cbn [omap list_omap stopping];
      by rewrite app_nil_r. }
  split; [exact Hst|]. split; [|split; [exact Hout|]].
  - rewrite Hst. intros Hin. apply list_elem_of_In, in_flat_map in Hin
      as (i & _ & Hin). apply list_elem_of_In in Hin.
    unfold final_status in Hin.
    destruct (rb_error (RunBuild cfg (envs i)));
      repeat (apply elem_of_cons in Hin as [Hin|Hin]; [done|]);
      by apply elem_of_nil in Hin.
  - rewrite Hout. rewrite !filter_app.
    assert (filter (λ c, is_Set c = true)
              match first_closed waits 0 fuel with
              | Some _ => [stopping]
              | None => []
              end = []) as -> by by destruct (first_closed waits 0 fuel).
    rewrite app_nil_r.
    change (filter (λ c, is_Set c = true) [NewRegistry]) with (@nil call).
    cbn [app]. clear Hst Hout. generalize 0%nat as n. subst k.
    induction (match first_closed waits 0 fuel with
               | Some j => S j
               | None => fuel
               end) as [|k IH]; intros n; [done|].
    cbn [turns seq map]. rewrite !filter_app, cycle_calls_Set, !length_app, IH.
    rewrite filter_cons.
    change (filter (λ c, is_Set c = true) [Select (waits n)]) with (@nil call).
    destruct (rb_error (RunBuild cfg (envs n))); done.
Qed.

End More_StartBuildLoop.

(** * The further properties on fleets *)

Lemma precompute_no_error_no_marker_witness :
  pre_errors (@precompute sound_fleet (seq 0 3)) = None
  ∧ (∀ h, pre_devices (@precompute sound_fleet (seq 0 3)) !! h ≠ Some None)
  ∧ length (c_tasks (cr_final
              (@compute sound_fleet (λ n, n) (seq 0 3)
                 (pre_devices (@precompute sound_fleet (seq 0 3)))))) = 3%nat.
Proof.
  assert (pre_errors (@precompute sound_fleet (seq 0 3)) = None) as Hpre
    by (vm_compute; reflexivity).
  destruct (@precompute_no_error_no_marker sound_fleet (seq 0 3) Hpre)
    as [Hmark Hall].
  split; [exact Hpre|]. split; [exact Hmark|].
  destruct (Hall (λ n, n)) as [Hlen _]. exact Hlen.
Defined.

Lemma compute_runs_never_stick_witness :
  ∃ s,
    @run sound_fleet [Main; Main; Worker 0%nat; Worker 1%nat; Worker 0%nat]
      (@compute_init sound_fleet (seq 0 2)
         (pre_devices (@precompute sound_fleet (seq 0 2)))) = Some s
    ∧ (sum_list_with critical_of (c_tasks s) ≤ 1)%nat
    ∧ ∃ th, is_Some (step_at th s).
Proof.
  assert (is_Some (@run sound_fleet
                     [Main; Main; Worker 0%nat; Worker 1%nat; Worker 0%nat]
                     (@compute_init sound_fleet (seq 0 2)
                        (pre_devices (@precompute sound_fleet (seq 0 2))))))
    as [s Hrun] by (vm_compute; eexists; reflexivity).
  exists s. split; [exact Hrun|].
  destruct (@compute_runs_never_stick sound_fleet _ _ _ s Hrun)
    as (Hgo & Hcrit & _ & _).
  split; [exact Hcrit|]. apply Hgo.
  revert Hrun. vm_compute. intros [= <-]. reflexivity.
Defined.

Lemma compute_result_free_of_schedule_witness :
  NoDup (map (@Hostname ten_devices_flaky) (seq 0 10))
  ∧ cr_built (@compute ten_devices_flaky (λ n, n) (seq 0 10)
                (pre_devices (@precompute ten_devices_flaky (seq 0 10))))
    = cr_built (@compute ten_devices_flaky (λ n, (7 * n + 3)%nat) (seq 0 10)
                  (pre_devices (@precompute ten_devices_flaky (seq 0 10))))
  ∧ cr_devices (@compute ten_devices_flaky (λ n, n) (seq 0 10)
                  (pre_devices (@precompute ten_devices_flaky (seq 0 10))))
    = cr_devices (@compute ten_devices_flaky (λ n, (7 * n + 3)%nat) (seq 0 10)
                    (pre_devices (@precompute ten_devices_flaky (seq 0 10)))).
Proof.
  assert (NoDup (map (@Hostname ten_devices_flaky) (seq 0 10))) as Hnodup
    by compute_done.
  destruct (@compute_result_free_of_schedule ten_devices_flaky
              (λ n, n) (λ n, (7 * n + 3)%nat) (seq 0 10)
              (pre_devices (@precompute ten_devices_flaky (seq 0 10))) Hnodup)
    as (Hbuilt & _ & Hdevs & _).
  split; [exact Hnodup|]. split; [exact Hbuilt|exact Hdevs].
Defined.

Lemma compute_all_marked_witness :
  (∀ dev, dev ∈ seq 0 3 →
     @is_nil unmodelled_fleet
       (pre_devices (@precompute unmodelled_fleet (seq 0 3)))
       (@Hostname unmodelled_fleet dev) = true)
  ∧ cr_built (@compute unmodelled_fleet (λ n, n) (seq 0 3)
                (pre_devices (@precompute unmodelled_fleet (seq 0 3)))) = 0
  ∧ cr_error (@compute unmodelled_fleet (λ n, n) (seq 0 3)
                (pre_devices (@precompute unmodelled_fleet (seq 0 3)))) = None.
Proof.
  assert (∀ dev, dev ∈ seq 0 3 →
            @is_nil unmodelled_fleet
              (pre_devices (@precompute unmodelled_fleet (seq 0 3)))
              (@Hostname unmodelled_fleet dev) = true) as Hnil.
  { intros dev Hin. apply list_elem_of_In in Hin. simpl in Hin.
    destruct Hin as [<-|[<-|[<-|[]]]]; vm_compute; reflexivity. }
  destruct (@compute_all_marked unmodelled_fleet (λ n, n) (seq 0 3)
              (pre_devices (@precompute unmodelled_fleet (seq 0 3))) Hnil)
    as (_ & Hbuilt & Herr & _).
  split; [exact Hnil|]. split; [exact Hbuilt|exact Herr].
Defined.

Lemma RunBuild_durations_witness :
  let env := @fetched ten_devices (seq 0 10) in
  let p := Performance_ (rb_stats (@RunBuild ten_devices lenient_policy env)) in
  fetch_result env = inl (seq 0 10)
  ∧ AllDevicesMustBuild lenient_policy = false
  ∧ now env 0 ≤ now env 1 ≤ now env 2
  ∧ now env 2 ≤ now env 3 < now env 0 + 2 ^ 63
  ∧ BuildDuration p
    = DataFetchingDuration p + PrecomputeDuration p + ComputeDuration p.
Proof.
  intros env p.
  assert (now env 0 ≤ now env 1 ≤ now env 2) as H012 by (vm_compute; split; discriminate).
  assert (now env 2 ≤ now env 3 < now env 0 + 2 ^ 63) as H23
    by (vm_compute; split; [discriminate|reflexivity]).
  destruct (@RunBuild_durations ten_devices lenient_policy env (seq 0 10)
              eq_refl (or_intror eq_refl) H012 H23)
    as (_ & _ & _ & Hsum & _).
  split; [reflexivity|]. split; [reflexivity|]. split; [exact H012|].
  split; [exact H23|exact Hsum].
Defined.

Lemma RunBuild_success_builds_every_model_witness :
  let env := @fetched ten_devices (seq 0 10) in
  fetch_result env = inl (seq 0 10)
  ∧ rb_error (@RunBuild ten_devices lenient_policy env) = None
  ∧ BuiltDevicesCount (rb_stats (@RunBuild ten_devices lenient_policy env))
    = Z.of_nat (length (@valid_devices ten_devices
                          (pre_devices (@precompute ten_devices (seq 0 10)))
                          (seq 0 10))) mod 2 ^ 32.
Proof.
  intros env.
  assert (rb_error (@RunBuild ten_devices lenient_policy env) = None) as Hok
    by (vm_compute; reflexivity).
  destruct (@RunBuild_success_builds_every_model ten_devices lenient_policy env
              (seq 0 10) eq_refl Hok) as (Hcount & _).
  split; [reflexivity|]. split; [exact Hok|exact Hcount].
Defined.

Lemma StartBuildLoop_publishes_last_successful_build_witness :
  first_closed closed_at_second 0 5 = Some 1%nat
  ∧ published (@StartBuildLoop ten_devices 5 lenient_policy first_build_only
                 closed_at_second None).1
    = rb_devices (@RunBuild ten_devices lenient_policy (first_build_only 0))
  ∧ is_Some (published (@StartBuildLoop ten_devices 5 lenient_policy
                          first_build_only closed_at_second None).1).
Proof.
  split; [reflexivity|].
  destruct (@StartBuildLoop_publishes_last_successful_build ten_devices 5
              lenient_policy first_build_only closed_at_second None 1%nat eq_refl)
    as [_ Hlast].
  apply (Hlast 0%nat).
  - lia.
  - vm_compute. reflexivity.
  - intros i' Hi'. assert (i' = 1%nat) as -> by lia. vm_compute. discriminate.
Defined.
